(** * HydroSync servo controller: the BLE session logic of [src/App.js]

    A shallow embedding of the React Native component [App]: the scan with
    its timeout, the connection with retries, the topology check, the
    notification handler, the servo command and the three ways a session
    ends.  The adapter (react-native-ble-plx) and the React state are made
    explicit: every handler is a function from the world before it runs to
    the world after it, in a small state-and-exception monad.

    Conventions.
    - A JavaScript string is a [string]; its characters are the code units
      0..255.  [null] and [undefined] are [None].
    - [console.log] output is not recorded; the on-screen log (the React
      state [logs], written by [addLog]) is.
    - An [async] handler is run to completion as one step: the properties
      proved here do not depend on how two handlers interleave.
    - A handler closes over the state of the render that created it.  A
      handler run from the view is the one of the latest render, so what
      it closes over is the state at the moment of the call; the handler
      behind the "Yes" button of an alert is the one of the render that
      raised the alert ([startScan_from], [lostAlerts]).
    - Each call of [setServoState] is recorded, with the number of calls
      of [trace] made before it, in [servoWrites]: this is what orders
      the writes of the state and the calls of the adapter.
    - The answers of the adapter are the fields of [Adapter]; the calls
      the program makes to it are recorded, in order, in [trace]. *)

From Stdlib Require Import String Ascii List Bool Arith NArith ZArith Lia.
From Stdlib Require Import Strings.Byte DecimalString.
Import ListNotations.
Open Scope string_scope.

(** ** JavaScript strings *)

Module JsString.

(** [s.includes(t)]: [t] occurs in [s] at some position. *)
Fixpoint includes (s t : string) : bool :=
  match s with
  | EmptyString => prefix t EmptyString
  | String _ s' => prefix t s || includes s' t
  end.

Definition code (c : ascii) : N := N_of_ascii c.

(** [toLowerCase] on the code units 0..255: A-Z, and the Latin-1 capitals
    (all of C0..DE but the multiplication sign D7). *)
Definition lower_char (c : ascii) : ascii :=
  let n := code c in
  if ((65 <=? n) && (n <=? 90))%N then ascii_of_N (n + 32)
  else if ((192 <=? n) && (n <=? 222) && negb (n =? 215))%N then ascii_of_N (n + 32)
  else c.

Fixpoint toLowerCase (s : string) : string :=
  match s with
  | EmptyString => EmptyString
  | String c s' => String (lower_char c) (toLowerCase s')
  end.

(** White space as [trim] sees it, among the code units 0..255. *)
Definition is_space (c : ascii) : bool :=
  let n := code c in
  (((9 <=? n) && (n <=? 13)) || (n =? 32) || (n =? 160))%N.

Fixpoint trimStart (s : string) : string :=
  match s with
  | EmptyString => EmptyString
  | String c s' => if is_space c then trimStart s' else s
  end.

(** [trimEnd], right to left: a character is kept when it is not white
    space or something is kept after it. *)
Fixpoint trimEnd (s : string) : string :=
  match s with
  | EmptyString => EmptyString
  | String c s' =>
      match trimEnd s' with
      | EmptyString => if is_space c then EmptyString else String c EmptyString
      | kept => String c kept
      end
  end.

Definition trim (s : string) : string := trimEnd (trimStart s).

(** A number inside a template literal. *)
Definition of_nat (n : nat) : string := NilZero.string_of_uint (Nat.to_uint n).

End JsString.

(** ** JavaScript values, as far as [||] and [&&] need them *)

Module Js.

Inductive value : Type :=
| Null
| Bool (b : bool)
| Str (s : string).

Definition truthy (v : value) : bool :=
  match v with
  | Null => false
  | Bool b => b
  | Str EmptyString => false
  | Str _ => true
  end.

(** [a || b] and [a && b] return one of their operands. *)
Definition or_ (a b : value) : value := if truthy a then a else b.
Definition and_ (a b : value) : value := if truthy a then b else a.

(** A value inside a template literal. *)
Definition to_string (v : value) : string :=
  match v with
  | Null => "null"
  | Bool true => "true"
  | Bool false => "false"
  | Str s => s
  end.

(** A [?string] field. *)
Definition of_option (o : option string) : value :=
  match o with
  | Some s => Str s
  | None => Null
  end.

(** [x === k] for a [?string] field [x] and a string [k]. *)
Definition strict_eq (o : option string) (k : string) : bool :=
  match o with
  | Some s => String.eqb s k
  | None => false
  end.

(** [x && x.includes(k)]. *)
Definition and_includes (o : option string) (k : string) : value :=
  and_ (of_option o)
      (match o with
       | Some s => Bool (JsString.includes s k)
       | None => Null
       end).

End Js.

(** ** The [buffer] package: UTF-8, base64 and ASCII

    [Buffer.from(s)], [buf.toString("base64")], [Buffer.from(s, "base64")]
    and [buf.toString("ascii")] as the package [buffer] imported by
    [src/App.js] computes them (base64 after RFC 4648; the decoder reads up
    to the first [=], skips what is outside the alphabet and accepts the
    URL-safe [-] and [_]). *)

Module Buffer.

Definition t : Type := list byte.

Definition byte_of_N (n : N) : byte :=
  match Byte.of_N (n mod 256) with
  | Some b => b
  | None => x00
  end.

(** [Buffer.from(s)]: the UTF-8 bytes of the code units of [s]. *)
Definition utf8_char (c : ascii) : list byte :=
  let n := JsString.code c in
  if (n <? 128)%N then [byte_of_N n]
  else [byte_of_N (192 + n / 64); byte_of_N (128 + n mod 64)].

Fixpoint from (s : string) : t :=
  match s with
  | EmptyString => []
  | String c s' => (utf8_char c ++ from s')%list
  end.

Definition alphabet : string :=
  "ABCDEFGHIJKLMNOPQRSTUVWXYZabcdefghijklmnopqrstuvwxyz0123456789+/".

(** The character of a 6-bit group. *)
Definition digit (n : N) : ascii :=
  match get (N.to_nat n) alphabet with
  | Some c => c
  | None => "="%char
  end.

(** The 6-bit group of a character, if it has one. *)
Definition sextet (c : ascii) : option N :=
  let n := JsString.code c in
  if ((65 <=? n) && (n <=? 90))%N then Some (n - 65)%N
  else if ((97 <=? n) && (n <=? 122))%N then Some (n - 71)%N
  else if ((48 <=? n) && (n <=? 57))%N then Some (n + 4)%N
  else if ((n =? 43) || (n =? 45))%N then Some 62%N
  else if ((n =? 47) || (n =? 95))%N then Some 63%N
  else None.

(** [buf.toString("base64")]. *)
Fixpoint toString_base64 (buf : t) : string :=
  match buf with
  | [] => EmptyString
  | [a] =>
      let a := Byte.to_N a in
      String (digit (a / 4)) (String (digit (a mod 4 * 16)) "==")
  | [a; b] =>
      let a := Byte.to_N a in
      let b := Byte.to_N b in
      String (digit (a / 4))
        (String (digit (a mod 4 * 16 + b / 16))
           (String (digit (b mod 16 * 4)) "="))
  | a :: b :: c :: rest =>
      let a := Byte.to_N a in
      let b := Byte.to_N b in
      let c := Byte.to_N c in
      String (digit (a / 4))
        (String (digit (a mod 4 * 16 + b / 16))
           (String (digit (b mod 16 * 4 + c / 64))
              (String (digit (c mod 64)) (toString_base64 rest))))
  end.

(** The 6-bit groups of a base64 text: nothing after the first [=], and
    no character outside the alphabet. *)
Fixpoint sextets (s : string) : list N :=
  match s with
  | EmptyString => []
  | String c s' =>
      if Ascii.eqb c "="%char then []
      else match sextet c with
           | Some v => v :: sextets s'
           | None => sextets s'
           end
  end.

Fixpoint bytes_of_sextets (l : list N) : t :=
  match l with
  | s1 :: s2 :: s3 :: s4 :: rest =>
      byte_of_N (s1 * 4 + s2 / 16)
        :: byte_of_N (s2 mod 16 * 16 + s3 / 4)
        :: byte_of_N (s3 mod 4 * 64 + s4)
        :: bytes_of_sextets rest
  | [s1; s2; s3] =>
      [byte_of_N (s1 * 4 + s2 / 16); byte_of_N (s2 mod 16 * 16 + s3 / 4)]
  | [s1; s2] => [byte_of_N (s1 * 4 + s2 / 16)]
  | _ => []
  end.

(** [Buffer.from(s, "base64")]. *)
Definition from_base64 (s : string) : t := bytes_of_sextets (sextets s).

(** [buf.toString("ascii")]: every byte with its high bit cleared. *)
Fixpoint toString_ascii (buf : t) : string :=
  match buf with
  | [] => EmptyString
  | b :: rest => String (ascii_of_N (Byte.to_N b mod 128)) (toString_ascii rest)
  end.

End Buffer.

(** ** The constants of [src/App.js] *)

Definition SERVICE_UUID : string := "0000FFE0-0000-1000-8000-00805F9B34FB".
Definition CHARACTERISTIC_UUID : string := "0000FFE1-0000-1000-8000-00805F9B34FB".
Definition DEVICE_NAME : string := "BT05".

(** The line feed that ends a command. *)
Definition LF : string := String "010" EmptyString.

(** ** What the adapter hands to the program *)

Record BleError : Type := { message : string }.

Record Device : Type := {
  id : string;
  name : option string;
  localName : option string
}.

Module Service.
Record t : Type := { uuid : string }.
End Service.

Module Characteristic.
Record t : Type := {
  uuid : string;
  isWritableWithResponse : bool;
  isWritableWithoutResponse : bool;
  value : option string
}.
End Characteristic.

(** How a promise of the adapter settles. *)
Inductive answer (A : Type) : Type :=
| Resolves (a : A)
| Rejects (e : BleError).
Arguments Resolves {A} a.
Arguments Rejects {A} e.

Inductive platform : Type :=
| Android (version : nat)
| Ios
| OtherOS.

(** The answers of the platform and of the BLE adapter.  [connect n] is the
    answer to the call of [device.connect] made after [n] earlier ones. *)
Record Adapter : Type := {
  Platform : platform;
  requestMultiple : answer (list bool);
  state : answer string;
  startDeviceScan : answer unit;
  connect : nat -> answer Device;
  discoverAllServicesAndCharacteristics : answer Device;
  services : answer (list Service.t);
  characteristicsForService : answer (list Characteristic.t);
  writeCharacteristicWithResponseForService : answer unit;
  writeCharacteristicWithoutResponseForService : answer unit;
  cancelConnection : answer unit
}.

(** The calls the program makes, in the order it makes them. *)
Inductive event : Type :=
| AlertAlert (title : string)
| RequestMultiple (permissions : nat)
| GetState
| StartDeviceScan
| StopDeviceScan
| SetTimeout (handle : nat) (ms : N)
| ClearTimeout (handle : nat)
| Wait (ms : N)
| Connect (device_id : string)
| DiscoverAllServicesAndCharacteristics
| Services
| CharacteristicsForService (service : string)
| WriteWithResponse (service characteristic valueBase64 : string)
| WriteWithoutResponse (service characteristic valueBase64 : string)
| MonitorCharacteristicForService (service characteristic : string)
| OnDisconnected
| CancelConnection.

(** ** The world: the React state of [App], and the adapter as the calls
    of the program left it *)

Record World : Type := {
  device : option Device;
  isConnected : bool;
  isScanning : bool;
  logs : list string;
  servoState : bool;
  (** [bleManagerRef.current] is set *)
  bleManagerRef : bool;
  trace : list event;
  (** the handles of the timeouts that are pending *)
  timers : list nat;
  (** the listener given to [startDeviceScan], by the timeout handle it
      closes over, until [stopDeviceScan] *)
  scanListener : option nat;
  (** every call of [setServoState] so far, in order: the number of calls
      of [trace] made before it, and the value it set *)
  servoWrites : list (nat * bool);
  (** the "Connection Lost" alerts that are open, each by the [isScanning]
      of the render whose [startScan] its "Yes" button closes over *)
  lostAlerts : list bool
}.

Definition initial : World := {|
  device := None;
  isConnected := false;
  isScanning := false;
  logs := ["Ready to connect..."];
  servoState := false;
  bleManagerRef := true;
  trace := [];
  timers := [];
  scanListener := None;
  servoWrites := [];
  lostAlerts := []
|}.

(** ** The monad of a handler: state, and exceptions that keep the state *)

Inductive outcome (A : Type) : Type :=
| Returned (a : A)
| Thrown (e : BleError)
| OutOfFuel.
Arguments Returned {A} a.
Arguments Thrown {A} e.
Arguments OutOfFuel {A}.

Definition M (A : Type) : Type := World -> outcome A * World.

Definition ret {A} (a : A) : M A := fun w => (Returned a, w).

Definition bind {A B} (c : M A) (k : A -> M B) : M B :=
  fun w =>
    match c w with
    | (Returned a, w') => k a w'
    | (Thrown e, w') => (Thrown e, w')
    | (OutOfFuel, w') => (OutOfFuel, w')
    end.

Definition throw {A} (e : BleError) : M A := fun w => (Thrown e, w).

Definition out_of_fuel {A} : M A := fun w => (OutOfFuel, w).

(** [try { body } catch (error) { handler }] *)
Definition try_catch {A} (body : M A) (handler : BleError -> M A) : M A :=
  fun w =>
    match body w with
    | (Thrown e, w') => handler e w'
    | r => r
    end.

Definition get : M World := fun w => (Returned w, w).

Definition modify (f : World -> World) : M unit := fun w => (Returned tt, f w).

Declare Scope js_scope.
Delimit Scope js_scope with js.
Notation "x <- c1 ;; c2" := (bind c1 (fun x => c2))
  (at level 61, c1 at next level, right associativity) : js_scope.
Notation "c1 ;; c2" := (bind c1 (fun _ => c2))
  (at level 61, right associativity) : js_scope.
Open Scope js_scope.

(** The world after a handler, and how the handler ended. *)
Definition run {A} (c : M A) (w : World) : World := snd (c w).
Definition result {A} (c : M A) (w : World) : outcome A := fst (c w).

(** *** Writing the state *)

Definition with_device (d : option Device) (w : World) : World :=
  {| device := d; isConnected := isConnected w; isScanning := isScanning w;
     logs := logs w; servoState := servoState w; bleManagerRef := bleManagerRef w;
     trace := trace w; timers := timers w; scanListener := scanListener w;
     servoWrites := servoWrites w; lostAlerts := lostAlerts w |}.

Definition with_isConnected (b : bool) (w : World) : World :=
  {| device := device w; isConnected := b; isScanning := isScanning w;
     logs := logs w; servoState := servoState w; bleManagerRef := bleManagerRef w;
     trace := trace w; timers := timers w; scanListener := scanListener w;
     servoWrites := servoWrites w; lostAlerts := lostAlerts w |}.

Definition with_isScanning (b : bool) (w : World) : World :=
  {| device := device w; isConnected := isConnected w; isScanning := b;
     logs := logs w; servoState := servoState w; bleManagerRef := bleManagerRef w;
     trace := trace w; timers := timers w; scanListener := scanListener w;
     servoWrites := servoWrites w; lostAlerts := lostAlerts w |}.

Definition with_logs (l : list string) (w : World) : World :=
  {| device := device w; isConnected := isConnected w; isScanning := isScanning w;
     logs := l; servoState := servoState w; bleManagerRef := bleManagerRef w;
     trace := trace w; timers := timers w; scanListener := scanListener w;
     servoWrites := servoWrites w; lostAlerts := lostAlerts w |}.

Definition with_servoState (b : bool) (w : World) : World :=
  {| device := device w; isConnected := isConnected w; isScanning := isScanning w;
     logs := logs w; servoState := b; bleManagerRef := bleManagerRef w;
     trace := trace w; timers := timers w; scanListener := scanListener w;
     servoWrites := servoWrites w; lostAlerts := lostAlerts w |}.

Definition with_trace (t : list event) (w : World) : World :=
  {| device := device w; isConnected := isConnected w; isScanning := isScanning w;
     logs := logs w; servoState := servoState w; bleManagerRef := bleManagerRef w;
     trace := t; timers := timers w; scanListener := scanListener w;
     servoWrites := servoWrites w; lostAlerts := lostAlerts w |}.

Definition with_timers (t : list nat) (w : World) : World :=
  {| device := device w; isConnected := isConnected w; isScanning := isScanning w;
     logs := logs w; servoState := servoState w; bleManagerRef := bleManagerRef w;
     trace := trace w; timers := t; scanListener := scanListener w;
     servoWrites := servoWrites w; lostAlerts := lostAlerts w |}.

Definition with_scanListener (l : option nat) (w : World) : World :=
  {| device := device w; isConnected := isConnected w; isScanning := isScanning w;
     logs := logs w; servoState := servoState w; bleManagerRef := bleManagerRef w;
     trace := trace w; timers := timers w; scanListener := l;
     servoWrites := servoWrites w; lostAlerts := lostAlerts w |}.

Definition with_servoWrites (l : list (nat * bool)) (w : World) : World :=
  {| device := device w; isConnected := isConnected w; isScanning := isScanning w;
     logs := logs w; servoState := servoState w; bleManagerRef := bleManagerRef w;
     trace := trace w; timers := timers w; scanListener := scanListener w;
     servoWrites := l; lostAlerts := lostAlerts w |}.

Definition with_lostAlerts (l : list bool) (w : World) : World :=
  {| device := device w; isConnected := isConnected w; isScanning := isScanning w;
     logs := logs w; servoState := servoState w; bleManagerRef := bleManagerRef w;
     trace := trace w; timers := timers w; scanListener := scanListener w;
     servoWrites := servoWrites w; lostAlerts := l |}.

Definition setDevice (d : option Device) : M unit := modify (with_device d).
Definition setIsConnected (b : bool) : M unit := modify (with_isConnected b).
Definition setIsScanning (b : bool) : M unit := modify (with_isScanning b).

(** [setServoState(b)]; the write is recorded with the number of calls
    made before it. *)
Definition setServoState (b : bool) : M unit :=
  modify (fun w =>
            with_servoWrites (servoWrites w ++ [(length (trace w), b)])
                             (with_servoState b w)).

(** [addLog]: [setLogs((prevLogs) => [...prevLogs, message])] *)
Definition addLog (message : string) : M unit :=
  modify (fun w => with_logs (logs w ++ [message]) w).

(** *** Calling out *)

Definition emit (e : event) : M unit :=
  modify (fun w => with_trace (trace w ++ [e]) w).

(** [await] on a call of the adapter. *)
Definition await {A} (e : event) (a : answer A) : M A :=
  emit e ;;
  match a with
  | Resolves x => ret x
  | Rejects err => throw err
  end.

Definition alert (title : string) : M unit := emit (AlertAlert title).

(** The alert of lines 407-420: "Connection Lost", with a "Yes" button
    whose handler calls the [startScan] of the render that raised it
    ([isScanningRendered] is the scanning flag that [startScan] closes over),
    and a "No" button.  The alert stays open until a button is pressed. *)
Definition alert_reconnect (isScanningRendered : bool) : M unit :=
  alert "Connection Lost" ;;
  modify (fun w => with_lostAlerts (lostAlerts w ++ [isScanningRendered]) w).

(** A button of the [n]-th open alert is pressed: the alert closes. *)
Definition close_alert (n : nat) (w : World) : World :=
  with_lostAlerts (firstn n (lostAlerts w) ++ skipn (S n) (lostAlerts w)) w.

(** A method called on [bleManagerRef.current]: a [TypeError] when the
    reference is [null]. *)
Definition on_bleManager {A} (c : M A) : M A :=
  w <- get ;;
  if bleManagerRef w then c
  else throw {| message := "Cannot read properties of null" |}.

(** [setTimeout(callback, ms)]: a fresh handle, pending. *)
Definition setTimeout (ms : N) : M nat :=
  w <- get ;;
  let handle := S (list_max (timers w)) in
  emit (SetTimeout handle ms) ;;
  modify (fun w => with_timers (handle :: timers w) w) ;;
  ret handle.

Definition clearTimeout (handle : nat) : M unit :=
  emit (ClearTimeout handle) ;;
  modify (fun w => with_timers (remove Nat.eq_dec handle (timers w)) w).

(** [stopDeviceScan()]: the adapter stops and drops the scan listener. *)
Definition stopDeviceScan : M unit :=
  emit StopDeviceScan ;;
  modify (with_scanListener None).

(** [array.forEach] over a handler body. *)
Fixpoint forEach {A} (l : list A) (f : A -> M unit) : M unit :=
  match l with
  | [] => ret tt
  | x :: l' => f x ;; forEach l' f
  end.

(** ** The handlers of [App] *)

Section Handlers.

Variable adapter : Adapter.

Definition is_connect (e : event) : bool :=
  match e with
  | Connect _ => true
  | _ => false
  end.

(** The number of [device.connect] calls made so far. *)
Definition attempts (t : list event) : nat := length (filter is_connect t).

(** [scannedDevice.connect({ timeout: 10000, autoConnect: true })] *)
Definition device_connect (scannedDevice : Device) : M Device :=
  w <- get ;;
  await (Connect (id scannedDevice)) (connect adapter (attempts (trace w))).

(** [requestPermissions], lines 101-136. *)
Definition requestPermissions : M bool :=
  match Platform adapter with
  | Android version =>
      try_catch
        (let permissions := if (31 <=? version)%nat then 3 else 1 in
         granted <- await (RequestMultiple permissions) (requestMultiple adapter) ;;
         let allGranted := forallb (fun status => status) granted in
         if allGranted
         then addLog "All required permissions granted" ;; ret true
         else addLog "Some permissions denied" ;; ret false)
        (fun error => addLog ("Permission error: " ++ message error) ;; ret false)
  | Ios => addLog "iOS: Permission should be set in Info.plist" ;; ret true
  | OtherOS => ret true
  end.

(** *** Connecting, lines 221-332 *)

(** One turn of the retry loop (lines 231-250): the [try] block and its
    [catch].  Returns [retryCount] and [connectedDevice] as the turn
    leaves them. *)
Definition connectAttempt (maxRetries : nat) (scannedDevice : Device)
    (retryCount : nat) (connectedDevice : option Device) : M (nat * option Device) :=
  try_catch
    ((if (0 <? retryCount)%nat
      then addLog ("Retry attempt " ++ JsString.of_nat retryCount ++ "...")
      else ret tt) ;;
     connected <- device_connect scannedDevice ;;
     addLog "Connected!" ;;
     ret (retryCount, Some connected))
    (fun connectionError =>
       let retryCount := S retryCount in
       if (maxRetries <? retryCount)%nat then throw connectionError
       else
         addLog "Connection attempt failed, retrying..." ;;
         emit (Wait 1000%N) ;;
         ret (retryCount, connectedDevice)).

(** [while (retryCount <= maxRetries && !connectedDevice)], line 230. *)
Fixpoint connectLoop (fuel : nat) (maxRetries : nat) (scannedDevice : Device)
    (retryCount : nat) (connectedDevice : option Device) : M (option Device) :=
  if (retryCount <=? maxRetries)%nat
     && match connectedDevice with Some _ => false | None => true end
  then
    match fuel with
    | 0 => out_of_fuel
    | S fuel' =>
        turn <- connectAttempt maxRetries scannedDevice retryCount connectedDevice ;;
        connectLoop fuel' maxRetries scannedDevice (fst turn) (snd turn)
    end
  else ret connectedDevice.

(** [services.find(s => s.uuid.toLowerCase() === SERVICE_UUID.toLowerCase())] *)
Definition is_target_service (s : Service.t) : bool :=
  String.eqb (JsString.toLowerCase (Service.uuid s)) (JsString.toLowerCase SERVICE_UUID).

Definition is_target_characteristic (c : Characteristic.t) : bool :=
  String.eqb (JsString.toLowerCase (Characteristic.uuid c))
             (JsString.toLowerCase CHARACTERISTIC_UUID).

(** Lines 261-288: the topology check of [connectToDevice]; it logs. *)
Definition verifyTopology : M unit :=
  services <- await Services (services adapter) ;;
  addLog ("Found " ++ JsString.of_nat (length services) ++ " services") ;;
  match find is_target_service services with
  | None =>
      addLog ("WARNING: Target service " ++ SERVICE_UUID ++ " not found!") ;;
      forEach services (fun s => addLog ("Available service: " ++ Service.uuid s))
  | Some targetService =>
      addLog ("Target service found: " ++ Service.uuid targetService) ;;
      characteristics <- await (CharacteristicsForService SERVICE_UUID)
                               (characteristicsForService adapter) ;;
      addLog ("Found " ++ JsString.of_nat (length characteristics)
                       ++ " characteristics for service") ;;
      match find is_target_characteristic characteristics with
      | None =>
          addLog ("WARNING: Target characteristic " ++ CHARACTERISTIC_UUID ++ " not found!") ;;
          forEach characteristics
                  (fun c => addLog ("Available characteristic: " ++ Characteristic.uuid c))
      | Some targetCharacteristic =>
          addLog ("Target characteristic found: " ++ Characteristic.uuid targetCharacteristic)
      end
  end.

(** Lines 253-326: what [connectToDevice] does once the loop is left. *)
Definition afterConnect (connectedDevice : option Device) : M unit :=
  addLog "Discovering services and characteristics..." ;;
  discoveredDevice <-
    match connectedDevice with
    | Some _ => await DiscoverAllServicesAndCharacteristics
                      (discoverAllServicesAndCharacteristics adapter)
    | None => throw {| message := "Cannot read properties of null" |}
    end ;;
  addLog "Services discovered" ;;
  verifyTopology ;;
  setDevice (Some discoveredDevice) ;;
  setIsConnected true ;;
  emit (MonitorCharacteristicForService SERVICE_UUID CHARACTERISTIC_UUID) ;;
  emit OnDisconnected.

(** [connectToDevice] with [maxRetries] as a parameter. *)
Definition connectToDevice_retrying (maxRetries : nat) (scannedDevice : Device) : M unit :=
  try_catch
    (addLog ("Connecting to "
               ++ Js.to_string (Js.or_ (Js.of_option (name scannedDevice))
                                       (Js.Str (id scannedDevice)))
               ++ "...") ;;
     connectedDevice <- connectLoop (maxRetries + 2) maxRetries scannedDevice 0 None ;;
     afterConnect connectedDevice)
    (fun error =>
       addLog ("Connection error: " ++ message error) ;;
       setIsConnected false ;;
       setDevice None).

(** [const maxRetries = 2], line 228. *)
Definition maxRetries : nat := 2.

Definition connectToDevice (scannedDevice : Device) : M unit :=
  connectToDevice_retrying maxRetries scannedDevice.

(** The listener given to [monitorCharacteristicForService], lines 297-316. *)
Definition onNotification (error : option BleError)
    (characteristic : option Characteristic.t) : M unit :=
  match error with
  | Some error => addLog ("Monitor error: " ++ message error)
  | None =>
      let value :=
        match characteristic with
        | Some c => Characteristic.value c
        | None => None
        end in
      match value with
      | Some value =>
          if Js.truthy (Js.Str value)
          then
            let message := Buffer.toString_ascii (Buffer.from_base64 value) in
            addLog ("Received: " ++ message) ;;
            if JsString.includes message "RAIN"
            then alert "Rain Detected!"
            else ret tt
          else ret tt
      | None => ret tt
      end
  end.

(** The listener given to [onDisconnected], lines 320-326. *)
Definition onDisconnected (error : option BleError)
    (disconnectedDevice : option Device) : M unit :=
  let deviceName :=
    Js.to_string
      (Js.or_ (match disconnectedDevice with
               | Some d => Js.of_option (name d)
               | None => Js.Null
               end)
              (Js.Str "Device")) in
  addLog ("Disconnected from " ++ deviceName) ;;
  setIsConnected false ;;
  setDevice None ;;
  setServoState false.

(** *** Scanning, lines 139-218 *)

(** The callback of the 15 s timeout, lines 171-177. *)
Definition onScanTimeout : M unit :=
  w <- get ;;
  if bleManagerRef w
  then stopDeviceScan ;; setIsScanning false ;; addLog "Scan timed out. Device not found."
  else ret tt.

(** The timeout [handle] elapses: its callback runs, once, if the timeout
    is still pending. *)
Definition timerFires (handle : nat) : M unit :=
  w <- get ;;
  if existsb (Nat.eqb handle) (timers w)
  then
    modify (fun w => with_timers (remove Nat.eq_dec handle (timers w)) w) ;;
    onScanTimeout
  else ret tt.

(** Lines 197-202. *)
Definition hasMatchingName (scannedDevice : Device) : Js.value :=
  let deviceName := name scannedDevice in
  let localName := localName scannedDevice in
  Js.or_
    (Js.or_
       (Js.or_ (Js.Bool (Js.strict_eq deviceName DEVICE_NAME))
               (Js.Bool (Js.strict_eq localName DEVICE_NAME)))
       (Js.and_includes deviceName DEVICE_NAME))
    (Js.and_includes localName DEVICE_NAME).

(** The listener given to [startDeviceScan], lines 182-212; it closes
    over [scanTimeoutId]. *)
Definition onScan (scanTimeoutId : nat) (error : option BleError)
    (scannedDevice : option Device) : M unit :=
  match error with
  | Some error =>
      clearTimeout scanTimeoutId ;;
      setIsScanning false ;;
      addLog ("Scan error: " ++ message error)
  | None =>
      match scannedDevice with
      | Some scannedDevice =>
          if Js.truthy (hasMatchingName scannedDevice)
          then
            clearTimeout scanTimeoutId ;;
            on_bleManager stopDeviceScan ;;
            setIsScanning false ;;
            addLog ("Found " ++ DEVICE_NAME ++ "! ("
                      ++ Js.to_string (Js.or_ (Js.of_option (name scannedDevice))
                                              (Js.of_option (localName scannedDevice)))
                      ++ ")") ;;
            connectToDevice scannedDevice
          else ret tt
      | None => ret tt
      end
  end.

(** [startScan], lines 139-218, as created by a render whose scanning
    flag was [isScanningRendered]: the guard of line 144 tests the flag the
    function closes over, and line 140 the manager reference at the moment
    of the call. *)
Definition startScan_from (isScanningRendered : bool) : M unit :=
  w <- get ;;
  if negb (bleManagerRef w) then addLog "BLE Manager not initialized"
  else if isScanningRendered then addLog "Already scanning..."
  else
    try_catch
      (permissionsGranted <- requestPermissions ;;
       if negb permissionsGranted then addLog "Required permissions not granted"
       else
         state <- await GetState (state adapter) ;;
         if negb (String.eqb state "PoweredOn")
         then
           addLog ("Bluetooth is not ready (state: " ++ state
                     ++ "). Please enable Bluetooth.") ;;
           alert "Bluetooth not enabled"
         else
           addLog "Scanning for BT05..." ;;
           setIsScanning true ;;
           scanTimeoutId <- setTimeout 15000%N ;;
           await StartDeviceScan (startDeviceScan adapter) ;;
           modify (with_scanListener (Some scanTimeoutId)))
      (fun error =>
         setIsScanning false ;;
         addLog ("Scan error: " ++ message error)).

(** The [startScan] of the latest render, as the view calls it: the flag
    it closes over is the state at the moment of the call. *)
Definition startScan : M unit :=
  w <- get ;;
  startScan_from (isScanning w).

(** *** Ending a session, lines 335-347 *)

Definition disconnectDevice : M unit :=
  w <- get ;;
  match device w with
  | Some _ =>
      try_catch
        (addLog "Disconnecting..." ;;
         await CancelConnection (cancelConnection adapter))
        (fun error =>
           addLog ("Disconnect error: " ++ message error) ;;
           setIsConnected false ;;
           setDevice None ;;
           setServoState false)
  | None => ret tt
  end.

(** *** The servo command, lines 350-423 *)

(** Line 357. *)
Definition command_of (newState : bool) : string :=
  if newState then "ON" ++ LF else "OFF" ++ LF.

(** [Buffer.from(command).toString("base64")], lines 389 and 395. *)
Definition wire (command : string) : string :=
  Buffer.toString_base64 (Buffer.from command).

Definition toggleServo : M unit :=
  w <- get ;;
  if match device w with Some _ => false | None => true end || negb (isConnected w)
  then addLog "Not connected to device"
  else
    let newState := negb (servoState w) in
    let command := command_of newState in
    try_catch
      (addLog ("Sending command: " ++ JsString.trim command) ;;
       services <- await Services (services adapter) ;;
       match find is_target_service services with
       | None => addLog "ERROR: Service not available"
       | Some targetService =>
           characteristics <- await (CharacteristicsForService SERVICE_UUID)
                                    (characteristicsForService adapter) ;;
           match find is_target_characteristic characteristics with
           | None => addLog "ERROR: Characteristic not available"
           | Some targetCharacteristic =>
               let writeType :=
                 if Characteristic.isWritableWithResponse targetCharacteristic
                 then "withResponse" else "withoutResponse" in
               addLog ("Using write " ++ writeType) ;;
               (if String.eqb writeType "withResponse"
                then await (WriteWithResponse SERVICE_UUID CHARACTERISTIC_UUID (wire command))
                           (writeCharacteristicWithResponseForService adapter)
                else await (WriteWithoutResponse SERVICE_UUID CHARACTERISTIC_UUID (wire command))
                           (writeCharacteristicWithoutResponseForService adapter)) ;;
               setServoState newState ;;
               addLog ("Command sent successfully: " ++ JsString.trim command)
           end
       end)
      (fun error =>
         addLog ("Command error: " ++ message error) ;;
         if JsString.includes (message error) "disconnected"
            || JsString.includes (message error) "not connected"
         then
           setIsConnected false ;;
           setDevice None ;;
           alert_reconnect (isScanning w)
         else ret tt).

End Handlers.

(** ** The rest of [App]: the manager singleton, the mount effect, the view
    and the events the component reacts to *)

(** The module state of lines 17-30: whether [require] gave a [BleManager]
    class, the singleton instance, and how often the constructor was
    called so far. *)
Record Globals : Type := {
  BleManager : bool;
  bleManagerInstance : option nat;
  constructions : nat
}.

(** [getBleManager], lines 31-41. [construct] is how [new BleManager()]
    ends, should it be called; an instance is named by the number of the
    call that made it. *)
Definition getBleManager (construct : answer unit) (g : Globals) : option nat * Globals :=
  if match bleManagerInstance g with Some _ => false | None => true end && BleManager g
  then
    match construct with
    | Resolves _ =>
        let made := S (constructions g) in
        (Some made,
         {| BleManager := BleManager g; bleManagerInstance := Some made;
            constructions := made |})
    | Rejects _ =>
        (None,
         {| BleManager := BleManager g; bleManagerInstance := None;
            constructions := S (constructions g) |})
    end
  else (bleManagerInstance g, g).

Definition with_bleManagerRef (b : bool) (w : World) : World :=
  {| device := device w; isConnected := isConnected w; isScanning := isScanning w;
     logs := logs w; servoState := servoState w; bleManagerRef := b;
     trace := trace w; timers := timers w; scanListener := scanListener w;
     servoWrites := servoWrites w; lostAlerts := lostAlerts w |}.

(** The component at its first render, before the mount effect:
    [useRef(null)] (line 45) and the initial state of lines 46-51. *)
Definition unmounted : World := with_bleManagerRef false initial.

(** What the mount effect leaves behind: the tasks it started, and the
    cleanup it returned, if any. *)
Record Mounted : Type := {
  started : list (M unit);
  cleanup : option (M unit)
}.

Section Lifecycle.

Variable adapter : Adapter.

(** The callback of [state().then], lines 79-84. *)
Definition onInitialState (state : string) : M unit :=
  addLog ("Bluetooth state: " ++ state) ;;
  if negb (String.eqb state "PoweredOn")
  then addLog "Bluetooth is not powered on. Please enable Bluetooth."
  else ret tt.

(** The cleanup of the mount effect, lines 88-97. It closes over the
    [device] of the render the effect ran in; a rejected
    [cancelConnection] goes to the console only. *)
Definition effectCleanup (deviceAtMount : option Device) : M unit :=
  w <- get ;;
  (if bleManagerRef w then stopDeviceScan else ret tt) ;;
  match deviceAtMount with
  | Some _ =>
      try_catch (await CancelConnection (cancelConnection adapter)) (fun error => ret tt)
  | None => ret tt
  end.

(** The mount effect, lines 61-98. [manager] is what [getBleManager]
    returned. The effect calls [state()] and [requestPermissions()] and
    does not wait for either: their continuations are the tasks it
    started. *)
Definition initialize (imported : bool) (manager : option nat) : M Mounted :=
  w <- get ;;
  if negb imported
  then
    addLog "BLE functionality is not available" ;;
    alert "BLE Not Supported" ;;
    ret {| started := []; cleanup := None |}
  else
    modify (with_bleManagerRef (match manager with Some _ => true | None => false end)) ;;
    match manager with
    | None =>
        addLog "Failed to initialize BLE Manager" ;;
        ret {| started := []; cleanup := None |}
    | Some _ =>
        addLog "BLE Manager initialized" ;;
        emit GetState ;;
        ret {| started :=
                 [match state adapter with
                  | Resolves state => onInitialState state
                  | Rejects _ => ret tt
                  end;
                  (requestPermissions adapter ;; ret tt)];
               cleanup := Some (effectCleanup (device w)) |}
    end.

(** *** The view, lines 440-495 *)

Inductive action : Type :=
| DisconnectDevice
| StartScan
| ToggleServo.

Record Button : Type := {
  label : string;
  disabled : bool;
  onPress : action
}.

Record View : Type := {
  statusText : string;
  connectButton : Button;
  servoButton : Button;
  logLines : list string
}.

(** The degree sign of the servo label, U+00B0. *)
Definition degree : string := String "176" EmptyString.

Definition render (w : World) : View :=
  {| statusText :=
       if isConnected w then "Connected"
       else if isScanning w then "Scanning..." else "Disconnected";
     connectButton :=
       {| label := if isConnected w then "Disconnect"
                   else if isScanning w then "Scanning..." else "Connect";
          disabled := isScanning w;
          onPress := if isConnected w then DisconnectDevice else StartScan |};
     servoButton :=
       {| label := if servoState w
                   then "ON (270" ++ degree ++ ")"
                   else "OFF (0" ++ degree ++ ")";
          disabled := negb (isConnected w);
          onPress := ToggleServo |};
     logLines := logs w |}.

Definition perform (a : action) : M unit :=
  match a with
  | DisconnectDevice => disconnectDevice adapter
  | StartScan => startScan adapter
  | ToggleServo => toggleServo adapter
  end.

(** A press on a button of the view: nothing when it is disabled. *)
Definition press (b : Button) : M unit :=
  if disabled b then ret tt else perform (onPress b).

(** *** What the component reacts to *)

Inductive stimulus : Type :=
| PressConnect
| PressServo
| PressReconnect (alertIndex : nat)
| PressCancel (alertIndex : nat)
| TimerElapsed (handle : nat)
| ScanResult (error : option BleError) (scannedDevice : option Device)
| Notified (error : option BleError) (characteristic : option Characteristic.t)
| DeviceDisconnected (error : option BleError) (disconnectedDevice : option Device).

Definition has_event (e : event -> bool) (w : World) : bool := existsb e (trace w).


Definition is_subscribe (e : event) : bool :=
  match e with
  | MonitorCharacteristicForService _ _ => true
  | _ => false
  end.

Definition is_onDisconnected (e : event) : bool :=
  match e with
  | OnDisconnected => true
  | _ => false
  end.

(** The handler a stimulus runs in a world.  The buttons of the view run
    the handlers of the latest render.  "Yes" and "No" can be pressed on
    an open "Connection Lost" alert only, and close it; "Yes" runs the
    [startScan] the alert closes over (line 413), which is the one of the
    render that raised the alert, not of the latest.  A scan result
    reaches the listener only while the adapter holds one; a notification
    or a disconnection needs the listener of line 294 or 320 to have been
    given to the adapter. *)
Definition react (s : stimulus) (w : World) : M unit :=
  match s with
  | PressConnect => press (connectButton (render w))
  | PressServo => press (servoButton (render w))
  | PressReconnect alertIndex =>
      match nth_error (lostAlerts w) alertIndex with
      | Some isScanningRendered =>
          modify (close_alert alertIndex) ;;
          startScan_from adapter isScanningRendered
      | None => ret tt
      end
  | PressCancel alertIndex =>
      match nth_error (lostAlerts w) alertIndex with
      | Some _ => modify (close_alert alertIndex)
      | None => ret tt
      end
  | TimerElapsed handle => timerFires handle
  | ScanResult error scannedDevice =>
      match scanListener w with
      | Some scanTimeoutId => onScan adapter scanTimeoutId error scannedDevice
      | None => ret tt
      end
  | Notified error characteristic =>
      if has_event is_subscribe w then onNotification error characteristic else ret tt
  | DeviceDisconnected error disconnectedDevice =>
      if has_event is_onDisconnected w
      then onDisconnected error disconnectedDevice
      else ret tt
  end.

End Lifecycle.

(** The tasks a mount effect that ended as [o] has started. *)
Definition tasks_of (o : outcome Mounted) : list (M unit) :=
  match o with
  | Returned mounted => started mounted
  | Thrown _ | OutOfFuel => []
  end.

(** The worlds a mounted component can be in.  It starts as [initial], or
    as what the mount effect leaves of [unmounted] when it gets a manager;
    from there, any task that effect started may complete and any
    stimulus may come, with whatever the adapter answers at that
    moment. *)
Inductive reachable : World -> Prop :=
| reachable_initial : reachable initial
| reachable_mounted (adapter : Adapter) (manager : nat) :
    reachable (run (initialize adapter true (Some manager)) unmounted)
| reachable_task (adapter : Adapter) (manager : nat) (task : M unit) (w : World) :
    reachable w ->
    In task (tasks_of (result (initialize adapter true (Some manager)) unmounted)) ->
    reachable (run task w)
| reachable_react (adapter : Adapter) (s : stimulus) (w : World) :
    reachable w -> reachable (run (react adapter s w) w).

(** The world after the stimuli [events], each with the adapter as it
    answers at that moment. *)
Fixpoint reacts (events : list (Adapter * stimulus)) (w : World) : World :=
  match events with
  | [] => w
  | (adapter, s) :: rest => reacts rest (run (react adapter s w) w)
  end.

(** * The vocabulary of the properties *)

(** [t] is a contiguous part of [s]: what [s.includes(t)] decides. *)
Definition contains (s t : string) : Prop :=
  exists before after, s = before ++ t ++ after.

(** A name field names the target: it equals [DEVICE_NAME] or contains it. *)
Definition names_target (field : option string) : Prop :=
  exists n, field = Some n /\ (n = DEVICE_NAME \/ contains n DEVICE_NAME).

(** The expected service and characteristic are both in what discovery
    returns. *)
Definition topology_verified (adapter : Adapter) (c : Characteristic.t) : Prop :=
  exists svcs s chars,
    services adapter = Resolves svcs
    /\ find is_target_service svcs = Some s
    /\ characteristicsForService adapter = Resolves chars
    /\ find is_target_characteristic chars = Some c.

(** Discovery answers, and the expected service or the expected
    characteristic is not in the answer. *)
Definition topology_missing (adapter : Adapter) : Prop :=
  exists svcs,
    services adapter = Resolves svcs
    /\ (find is_target_service svcs = None
        \/ exists chars,
             characteristicsForService adapter = Resolves chars
             /\ find is_target_characteristic chars = None).

Definition is_write (e : event) : bool :=
  match e with
  | WriteWithResponse _ _ _ | WriteWithoutResponse _ _ _ => true
  | _ => false
  end.

Definition is_stop (e : event) : bool :=
  match e with
  | StopDeviceScan => true
  | _ => false
  end.

(** The write [toggleServo] issues for a characteristic, and the answer the
    adapter gives to it. *)
Definition write_call (c : Characteristic.t) (payload : string) : event :=
  if Characteristic.isWritableWithResponse c
  then WriteWithResponse SERVICE_UUID CHARACTERISTIC_UUID payload
  else WriteWithoutResponse SERVICE_UUID CHARACTERISTIC_UUID payload.

Definition write_answer (adapter : Adapter) (c : Characteristic.t) : answer unit :=
  if Characteristic.isWritableWithResponse c
  then writeCharacteristicWithResponseForService adapter
  else writeCharacteristicWithoutResponseForService adapter.

(** The test of line 404 on the message of a failed write. *)
Definition link_lost (error : BleError) : bool :=
  JsString.includes (message error) "disconnected"
  || JsString.includes (message error) "not connected".

(** The writes among the calls. *)
Definition writes (t : list event) : list event := filter is_write t.

(** The calls of [stopDeviceScan] among the calls. *)
Definition stops (t : list event) : list event := filter is_stop t.

(** A text of 7-bit characters. *)
Fixpoint seven_bit (s : string) : bool :=
  match s with
  | EmptyString => true
  | String c s' => (JsString.code c <? 128)%N && seven_bit s'
  end.

(** The character of the 6-bit group [n] reads back as [n], and is not the
    padding. *)
Definition digits_ok (n : N) : bool :=
  match Buffer.sextet (Buffer.digit n) with
  | Some m => (m =? n)%N && negb (Ascii.eqb (Buffer.digit n) "="%char)
  | None => false
  end.

(** Two worlds that differ at most in the log and the trace. *)
Definition same_session (w w' : World) : Prop :=
  device w' = device w /\ isConnected w' = isConnected w
  /\ isScanning w' = isScanning w /\ servoState w' = servoState w
  /\ bleManagerRef w' = bleManagerRef w /\ timers w' = timers w
  /\ scanListener w' = scanListener w.

(** The calls of [k] failed attempts, each followed by its wait. *)
Fixpoint failed_attempts (d : Device) (k : nat) : list event :=
  match k with
  | 0 => []
  | S k' => (Connect (id d) :: Wait 1000 :: failed_attempts d k')%list
  end.

(** Judgements on a computation: it only appends to the trace, calls that
    satisfy [p] ([emits p]; [appends] when [p] allows every call); it
    returns and leaves the trace as it was ([quiet]); the first call it
    makes is [e] ([first_call e]). *)
Definition emits (p : event -> bool) {A} (c : M A) : Prop :=
  forall w, exists rest,
    trace (snd (c w)) = (trace w ++ rest)%list /\ forallb p rest = true.

Definition any_call (e : event) : bool := true.

Definition appends {A} (c : M A) : Prop := emits any_call c.

Definition not_connect (e : event) : bool := negb (is_connect e).

Definition quiet {A} (c : M A) : Prop :=
  forall w, exists a w', c w = (Returned a, w') /\ trace w' = trace w.

Definition first_call (e : event) {A} (c : M A) : Prop :=
  forall w, exists rest, trace (snd (c w)) = (trace w ++ e :: rest)%list.

(** A computation that never runs out of fuel. *)
Definition halts {A} (c : M A) : Prop := forall w, fst (c w) <> OutOfFuel.

(** The world after the [catch] of [connectToDevice], lines 327-331. *)
Definition connection_failed (error : BleError) (w : World) : World :=
  with_device None
    (with_isConnected false
       (with_logs (logs w ++ [("Connection error: " ++ message error)%string]) w)).

(** The warnings of the topology check of [connectToDevice]. *)
Definition service_warning : string :=
  ("WARNING: Target service " ++ SERVICE_UUID ++ " not found!")%string.

Definition characteristic_warning : string :=
  ("WARNING: Target characteristic " ++ CHARACTERISTIC_UUID ++ " not found!")%string.

(** Whether the expected service is in what [services()] resolves with. *)
Definition service_found (adapter : Adapter) : bool :=
  match services adapter with
  | Resolves svcs =>
      match find is_target_service svcs with
      | Some _ => true
      | None => false
      end
  | Rejects _ => false
  end.

(** What names the missing identifier: the service when it is not found,
    else the characteristic.  The warning is the one of [connectToDevice],
    the error the one of [toggleServo]. *)
Definition missing_warning (adapter : Adapter) : string :=
  if service_found adapter then characteristic_warning else service_warning.

Definition missing_error (adapter : Adapter) : string :=
  if service_found adapter
  then "ERROR: Characteristic not available"%string
  else "ERROR: Service not available"%string.

(** The subscription of line 294. *)
Definition subscribe : event :=
  MonitorCharacteristicForService SERVICE_UUID CHARACTERISTIC_UUID.

(** The world after the first line of [connectToDevice], line 223. *)
Definition connecting (d : Device) (w : World) : World :=
  with_logs
    (logs w ++ [("Connecting to "
                   ++ Js.to_string (Js.or_ (Js.of_option (name d)) (Js.Str (id d)))
                   ++ "...")%string])
    w.

(** ** The vocabulary of the properties of the whole component *)

(** A computation that relates every world to the world it leaves, for a
    relation [R] on worlds. *)
Definition respects (R : World -> World -> Prop) {A} (c : M A) : Prop :=
  forall w, R w (snd (c w)).

(** The on-screen log only grows. *)
Definition log_grows (w w' : World) : Prop :=
  exists added, logs w' = (logs w ++ added)%list.

(** The session is left alone: the device, the connected flag and the servo
    state. *)
Definition same_connection (w w' : World) : Prop :=
  device w' = device w /\ isConnected w' = isConnected w
  /\ servoState w' = servoState w.

(** The scan is left alone: the scanning flag, the pending timeouts, the
    scan listener and the manager reference. *)
Definition same_scan (w w' : World) : Prop :=
  isScanning w' = isScanning w /\ timers w' = timers w
  /\ scanListener w' = scanListener w /\ bleManagerRef w' = bleManagerRef w.

(** The manager reference is left alone. *)
Definition same_manager (w w' : World) : Prop := bleManagerRef w' = bleManagerRef w.

(** The adapter is left alone: no call at all. *)
Definition no_call (w w' : World) : Prop := trace w' = trace w.

(** The subscriptions among the calls. *)
Definition subscribes (t : list event) : list event := filter is_subscribe t.

Definition not_subscribe (e : event) : bool := negb (is_subscribe e).

(** The connected flag is set exactly when a device is stored. *)
Definition connection_consistent (w : World) : Prop :=
  isConnected w = match device w with Some _ => true | None => false end.

(** The manager reference is set, and while the scanning flag is set the
    adapter holds the scan listener and the timeout that listener closes
    over is pending. *)
Definition scan_bounded (w : World) : Prop :=
  bleManagerRef w = true
  /\ (isScanning w = true ->
      exists scanTimeoutId,
        scanListener w = Some scanTimeoutId /\ In scanTimeoutId (timers w)).

(** [requestPermissions] is granted by the platform: any platform but
    Android, or an Android whose dialog resolves with every permission
    granted. *)
Definition permissions_granted (adapter : Adapter) : bool :=
  match Platform adapter with
  | Android _ =>
      match requestMultiple adapter with
      | Resolves granted => forallb (fun status => status) granted
      | Rejects _ => false
      end
  | Ios | OtherOS => true
  end.

(** The calls [requestPermissions] makes: the one dialog, on Android. *)
Definition permission_calls (adapter : Adapter) : list event :=
  match Platform adapter with
  | Android version => [RequestMultiple (if (31 <=? version)%nat then 3 else 1)]
  | Ios | OtherOS => []
  end.

Definition is_start (e : event) : bool :=
  match e with
  | StartDeviceScan => true
  | _ => false
  end.

(** The calls of [startDeviceScan] among the calls. *)
Definition starts (t : list event) : list event := filter is_start t.

(** The radio answers that it is powered on. *)
Definition powered_on (adapter : Adapter) : bool :=
  match state adapter with
  | Resolves state => String.eqb state "PoweredOn"
  | Rejects _ => false
  end.


(** The last line of the log. *)
Definition last_log (w : World) : option string := List.last (map Some (logs w)) None.

(** The last call made. *)
Definition last_call (w : World) : option event := List.last (map Some (trace w)) None.

(** [n] calls of [getBleManager] in a row, by how the constructor would end
    at each; the result of the last call and the module state after it. *)
Fixpoint getBleManager_calls (constructs : list (answer unit)) (g : Globals)
    : option nat * Globals :=
  match constructs with
  | nil => (bleManagerInstance g, g)
  | cons construct rest =>
      getBleManager_calls rest (snd (getBleManager construct g))
  end.




(** The constructor throws. *)
Definition throws {A} (a : answer A) : Prop := exists e, a = Rejects e.

(** A component without a manager and without a session: nothing is
    held, nothing is pending, no reconnection is on offer, and the
    adapter was never called. *)
Definition inert (w : World) : Prop :=
  bleManagerRef w = false /\ device w = None /\ isConnected w = false
  /\ isScanning w = false /\ servoState w = false
  /\ timers w = [] /\ scanListener w = None
  /\ (trace w = [] \/ trace w = [AlertAlert "BLE Not Supported"])
  /\ lostAlerts w = [] /\ servoWrites w = [].

(** ** Scenarios *)

Definition bt05 : Device :=
  {| id := "C8:FD:19:4A:2B:01"; name := Some "BT05"; localName := None |}.

Definition ffe0 : Service.t :=
  {| Service.uuid := "0000ffe0-0000-1000-8000-00805f9b34fb" |}.

Definition ffe1 (withResponse withoutResponse : bool) : Characteristic.t :=
  {| Characteristic.uuid := "0000ffe1-0000-1000-8000-00805f9b34fb";
     Characteristic.isWritableWithResponse := withResponse;
     Characteristic.isWritableWithoutResponse := withoutResponse;
     Characteristic.value := None |}.

(** A notified characteristic carrying [payload] (base64 of its bytes). *)
Definition notified (payload : string) : Characteristic.t :=
  {| Characteristic.uuid := "0000ffe1-0000-1000-8000-00805f9b34fb";
     Characteristic.isWritableWithResponse := false;
     Characteristic.isWritableWithoutResponse := true;
     Characteristic.value := Some (wire payload) |}.

(** A peripheral by what it answers: the connect attempts, the services,
    the characteristics, and the two writes. *)
Definition peripheral (attempt : nat -> answer Device) (svcs : list Service.t)
    (chars : list Characteristic.t) (written : answer unit) : Adapter :=
  {| Platform := Ios;
     requestMultiple := Resolves nil;
     state := Resolves "PoweredOn";
     startDeviceScan := Resolves tt;
     connect := attempt;
     discoverAllServicesAndCharacteristics := Resolves bt05;
     services := Resolves svcs;
     characteristicsForService := Resolves chars;
     writeCharacteristicWithResponseForService := written;
     writeCharacteristicWithoutResponseForService := written;
     cancelConnection := Resolves tt |}.

(** A session with [bt05] connected. *)
Definition connected (servo : bool) : World :=
  with_servoState servo (with_isConnected true (with_device (Some bt05) initial)).

(** [connect] fails [k] times, then succeeds. *)
Definition flaky (k : nat) (n : nat) : answer Device :=
  if (n <? k)%nat then Rejects {| message := "Operation timed out" |} else Resolves bt05.

(** An Android phone of API level [version] whose dialog ends as [dialog]
    and whose radio reports [radio]. *)
Definition android (version : nat) (dialog : answer (list bool)) (radio : string) : Adapter :=
  {| Platform := Android version;
     requestMultiple := dialog;
     state := Resolves radio;
     startDeviceScan := Resolves tt;
     connect := flaky 0;
     discoverAllServicesAndCharacteristics := Resolves bt05;
     services := Resolves [ffe0];
     characteristicsForService := Resolves [ffe1 true true];
     writeCharacteristicWithResponseForService := Resolves tt;
     writeCharacteristicWithoutResponseForService := Resolves tt;
     cancelConnection := Resolves tt |}.

(** A device that went out of range: every call on it is rejected with
    [error]. *)
Definition out_of_range (error : BleError) : Adapter :=
  {| Platform := Ios;
     requestMultiple := Resolves nil;
     state := Resolves "PoweredOn";
     startDeviceScan := Resolves tt;
     connect := fun _ => Rejects error;
     discoverAllServicesAndCharacteristics := Rejects error;
     services := Rejects error;
     characteristicsForService := Rejects error;
     writeCharacteristicWithResponseForService := Rejects error;
     writeCharacteristicWithoutResponseForService := Rejects error;
     cancelConnection := Rejects error |}.

(** A peripheral that answers everything. *)
Definition hm10 : Adapter := peripheral (flaky 0) [ffe0] [ffe1 true true] (Resolves tt).

(** The world after a press on "Connect", and after the advertisement of
    [bt05] that follows. *)
Definition scanning_world : World := run (react hm10 PressConnect initial) initial.


(** * Properties *)

(** ** Substring search *)

Section Includes.

Import JsString.

Lemma prefix_iff (t s : string) :
  prefix t s = true <-> exists rest, s = t ++ rest.
Proof.
  revert s; induction t as [|a t IH]; intros s; destruct s as [|b s]; simpl.
  - split; [intros _; now exists "" | reflexivity].
  - split; [intros _; now exists (String b s) | reflexivity].
  - split; [discriminate | intros [rest H]; discriminate].
  - destruct (ascii_dec a b) as [->|ne].
    + rewrite IH. split; intros [rest H]; exists rest.
      * now rewrite H.
      * now injection H.
    + split; [discriminate | intros [rest H]].
      injection H as H _. now elim ne.
Qed.

Lemma includes_iff (s t : string) : includes s t = true <-> contains s t.
Proof.
  unfold contains. induction s as [|c s IH].
  - cbn [includes]. rewrite prefix_iff. split.
    + intros [rest H]. destruct t; [|discriminate]. now exists "", "".
    + intros [before [rest H]]. destruct before; [|discriminate].
      destruct t; [|discriminate]. now exists "".
  - cbn [includes]. rewrite orb_true_iff, prefix_iff, IH. split.
    + intros [[rest H] | [before [rest H]]].
      * now exists "", rest.
      * exists (String c before), rest. cbn. now rewrite H.
    + intros [[|c' before] [rest H]].
      * left. now exists rest.
      * right. injection H as _ H. now exists before, rest.
Qed.

Lemma includes_false_iff (s t : string) : includes s t = false <-> ~ contains s t.
Proof.
  rewrite <- includes_iff. destruct (includes s t); split; congruence.
Qed.

Lemma contains_refl (s : string) : contains s s.
Proof.
  exists "", "". cbn. induction s as [|c s IH]; cbn; congruence.
Qed.

End Includes.

(** ** Reading one step of a handler *)

Ltac step :=
  unfold run, result, on_bleManager, stopDeviceScan, clearTimeout, alert_reconnect,
    alert, await,
    addLog, emit, setDevice, setIsConnected, setIsScanning, setServoState,
    modify, get, bind, ret, throw, out_of_fuel, try_catch in *;
  cbn [fst snd orb andb negb String.eqb Ascii.eqb Bool.eqb
       with_device with_isConnected with_isScanning with_logs with_servoState
       with_trace with_timers with_scanListener with_servoWrites with_lostAlerts
       device isConnected isScanning logs servoState bleManagerRef trace timers
       scanListener servoWrites lostAlerts] in *.

(** ** The name filter of the scanner (lines 195-211) *)

Section NameMatch.

Lemma and_includes_truthy (field : option string) :
  Js.truthy (Js.and_includes field DEVICE_NAME) = true
  <-> exists n, field = Some n /\ contains n DEVICE_NAME.
Proof.
  destruct field as [n|]; unfold Js.and_includes, Js.and_, Js.of_option.
  - destruct n as [|c n]; cbn [Js.truthy].
    + split; [discriminate | intros [n [[= <-] [before [rest H]]]]].
      destruct before; discriminate.
    + rewrite includes_iff. split; [intros H; eauto | now intros [m [[= <-] H]]].
  - cbn [Js.truthy]. split; [discriminate | intros [n [[=] _]]].
Qed.

Lemma strict_eq_true (field : option string) (k : string) :
  Js.strict_eq field k = true <-> field = Some k.
Proof.
  destruct field as [n|]; cbn [Js.strict_eq]; [rewrite String.eqb_eq|]; split; congruence.
Qed.

Lemma truthy_or (a b : Js.value) :
  Js.truthy (Js.or_ a b) = Js.truthy a || Js.truthy b.
Proof.
  unfold Js.or_. destruct (Js.truthy a) eqn:E; [now rewrite E | reflexivity].
Qed.

Lemma hasMatchingName_iff (d : Device) :
  Js.truthy (hasMatchingName d) = true
  <-> names_target (name d) \/ names_target (localName d).
Proof.
  unfold hasMatchingName, names_target.
  rewrite !truthy_or, !orb_true_iff, !and_includes_truthy.
  cbn [Js.truthy]. rewrite !strict_eq_true.
  split.
  - intros [[[H | H] | [n [H1 H2]]] | [n [H1 H2]]]; eauto 6.
  - intros [[n [H1 [-> | H2]]] | [n [H1 [-> | H2]]]]; eauto 6.
Qed.

End NameMatch.

(** From here on [++] joins lists; strings are joined with [%string]. *)
Open Scope list_scope.

(** ** What a handler adds to the trace *)

Section TraceLogic.

Lemma appends_iff {A} (c : M A) :
  appends c <-> forall w, exists rest, trace (snd (c w)) = trace w ++ rest.
Proof.
  split; intros H w; destruct (H w) as [rest E].
  - exists rest. tauto.
  - exists rest. split; [exact E|]. now apply forallb_forall.
Qed.

Lemma emits_appends (p : event -> bool) {A} (c : M A) : emits p c -> appends c.
Proof.
  intros H. apply appends_iff. intros w. destruct (H w) as [rest [E _]]. eauto.
Qed.

Lemma quiet_emits (p : event -> bool) {A} (c : M A) : quiet c -> emits p c.
Proof.
  intros H w. destruct (H w) as [a [w' [E T]]]. exists []. rewrite E. cbn.
  now rewrite app_nil_r.
Qed.

Lemma first_call_appends {A} (e : event) (c : M A) : first_call e c -> appends c.
Proof.
  intros H. apply appends_iff. intros w. destruct (H w) as [rest E]. eauto.
Qed.

Lemma quiet_ret {A} (a : A) : quiet (ret a).
Proof. intros w. now exists a, w. Qed.

Lemma quiet_get : quiet get.
Proof. intros w. now exists w, w. Qed.

Lemma quiet_modify (f : World -> World) :
  (forall w, trace (f w) = trace w) -> quiet (modify f).
Proof. intros H w. exists tt, (f w). now split. Qed.

Lemma quiet_addLog (m : string) : quiet (addLog m).
Proof. now apply quiet_modify. Qed.

Lemma quiet_setDevice d : quiet (setDevice d).
Proof. now apply quiet_modify. Qed.

Lemma quiet_setIsConnected b : quiet (setIsConnected b).
Proof. now apply quiet_modify. Qed.

Lemma quiet_setIsScanning b : quiet (setIsScanning b).
Proof. now apply quiet_modify. Qed.

Lemma quiet_setServoState b : quiet (setServoState b).
Proof. now apply quiet_modify. Qed.

Lemma quiet_bind {A B} (c : M A) (k : A -> M B) :
  quiet c -> (forall a, quiet (k a)) -> quiet (bind c k).
Proof.
  intros Hc Hk w. destruct (Hc w) as [a [w1 [E1 T1]]].
  destruct (Hk a w1) as [b [w2 [E2 T2]]].
  exists b, w2. unfold bind. rewrite E1, E2. split; congruence.
Qed.

Lemma quiet_forEach {A} (l : list A) (f : A -> M unit) :
  (forall x, quiet (f x)) -> quiet (forEach l f).
Proof.
  intros H. induction l as [|x l IH]; cbn [forEach].
  - apply quiet_ret.
  - apply quiet_bind; auto.
Qed.

Lemma emits_ret (p : event -> bool) {A} (a : A) : emits p (ret a).
Proof. apply quiet_emits, quiet_ret. Qed.

Lemma emits_throw (p : event -> bool) {A} (e : BleError) : emits p (@throw A e).
Proof. intros w. exists []. cbn. now rewrite app_nil_r. Qed.

Lemma emits_out_of_fuel (p : event -> bool) {A} : emits p (@out_of_fuel A).
Proof. intros w. exists []. cbn. now rewrite app_nil_r. Qed.

Lemma emits_emit (p : event -> bool) (e : event) : p e = true -> emits p (emit e).
Proof. intros H w. exists [e]. cbn. now rewrite H. Qed.

Lemma emits_await (p : event -> bool) {A} (e : event) (a : answer A) :
  p e = true -> emits p (await e a).
Proof. intros H w. exists [e]. cbn. rewrite H. now destruct a. Qed.

Lemma emits_bind (p : event -> bool) {A B} (c : M A) (k : A -> M B) :
  emits p c -> (forall a, emits p (k a)) -> emits p (bind c k).
Proof.
  intros Hc Hk w. destruct (Hc w) as [r1 [E1 F1]]. unfold bind.
  destruct (c w) as [[a | e |] w1]; cbn in *; eauto.
  destruct (Hk a w1) as [r2 [E2 F2]]. exists (r1 ++ r2).
  rewrite E2, E1, app_assoc, forallb_app, F1, F2. now split.
Qed.

Lemma emits_try_catch (p : event -> bool) {A} (body : M A) (handler : BleError -> M A) :
  emits p body -> (forall e, emits p (handler e)) -> emits p (try_catch body handler).
Proof.
  intros Hb Hh w. destruct (Hb w) as [r1 [E1 F1]]. unfold try_catch.
  destruct (body w) as [[a | e |] w1]; cbn in *; eauto.
  destruct (Hh e w1) as [r2 [E2 F2]]. exists (r1 ++ r2).
  rewrite E2, E1, app_assoc, forallb_app, F1, F2. now split.
Qed.

Lemma first_call_emit (e : event) : first_call e (emit e).
Proof. intros w. now exists []. Qed.

Lemma first_call_await {A} (e : event) (a : answer A) : first_call e (await e a).
Proof. intros w. exists []. now destruct a. Qed.

Lemma first_call_bind_here {A B} (e : event) (c : M A) (k : A -> M B) :
  first_call e c -> (forall a, appends (k a)) -> first_call e (bind c k).
Proof.
  intros Hc Hk w. destruct (Hc w) as [r1 E1]. unfold bind.
  destruct (c w) as [[a | err |] w1]; cbn in *; eauto.
  destruct (Hk a w1) as [r2 [E2 _]]. exists (r1 ++ r2).
  now rewrite E2, E1, <- app_assoc.
Qed.

Lemma first_call_bind_later {A B} (e : event) (c : M A) (k : A -> M B) :
  quiet c -> (forall a, first_call e (k a)) -> first_call e (bind c k).
Proof.
  intros Hc Hk w. destruct (Hc w) as [a [w1 [E1 T1]]].
  destruct (Hk a w1) as [r E2]. exists r. unfold bind. rewrite E1.
  now rewrite E2, T1.
Qed.

Lemma first_call_try_catch {A} (e : event) (body : M A) (handler : BleError -> M A) :
  first_call e body -> (forall err, appends (handler err)) ->
  first_call e (try_catch body handler).
Proof.
  intros Hb Hh w. destruct (Hb w) as [r1 E1]. unfold try_catch.
  destruct (body w) as [[a | err |] w1]; cbn in *; eauto.
  destruct (Hh err w1) as [r2 [E2 _]]. exists (r1 ++ r2).
  now rewrite E2, E1, <- app_assoc.
Qed.

(** What is appended without a [connect] leaves the count of attempts. *)
Lemma emits_not_connect_attempts {A} (c : M A) (w : World) :
  emits not_connect c -> attempts (trace (snd (c w))) = attempts (trace w).
Proof.
  intros H. destruct (H w) as [rest [E F]]. rewrite E. unfold attempts.
  rewrite filter_app, length_app.
  enough (filter is_connect rest = []) as -> by (cbn; lia).
  clear E. induction rest as [|e rest IH]; [reflexivity|].
  cbn in F. apply andb_true_iff in F as [Fe Fr]. cbn.
  unfold not_connect in Fe. apply negb_true_iff in Fe. rewrite Fe. auto.
Qed.

End TraceLogic.

Create HintDb trace_logic.
#[export] Hint Resolve quiet_ret quiet_get quiet_addLog quiet_setDevice
  quiet_setIsConnected quiet_setIsScanning quiet_setServoState
  emits_ret emits_throw emits_out_of_fuel
  first_call_emit first_call_await : trace_logic.

(** Splits a judgement along the shape of the computation. *)
Ltac trace_logic :=
  unfold appends;
  repeat first
    [ progress intros
    | solve [auto with trace_logic]
    | apply quiet_bind
    | apply quiet_forEach
    | apply emits_bind
    | apply emits_try_catch
    | match goal with
      | |- emits _ (emit _) => apply emits_emit; reflexivity
      | |- emits _ (await _ _) => apply emits_await; reflexivity
      | |- emits _ (alert _) => apply emits_emit; reflexivity
      | |- emits _ (forEach _ _) => apply quiet_emits
      | |- emits _ (addLog _) => apply quiet_emits
      | |- emits _ (setDevice _) => apply quiet_emits
      | |- emits _ (setIsConnected _) => apply quiet_emits
      | |- emits _ (setIsScanning _) => apply quiet_emits
      | |- emits _ (setServoState _) => apply quiet_emits
      | |- emits _ get => apply quiet_emits
      | |- first_call ?e (alert _) => apply first_call_emit
      | |- _ (match ?x with _ => _ end) => destruct x
      end ].

Section ConnectTrace.

Variable adapter : Adapter.

Lemma first_call_device_connect (d : Device) :
  first_call (Connect (id d)) (device_connect adapter d).
Proof.
  unfold device_connect. apply first_call_bind_later; trace_logic.
Qed.

Lemma first_call_connectAttempt (maxRetries : nat) (d : Device) (retryCount : nat)
    (connectedDevice : option Device) :
  first_call (Connect (id d))
             (connectAttempt adapter maxRetries d retryCount connectedDevice).
Proof.
  unfold connectAttempt. apply first_call_try_catch.
  - apply first_call_bind_later.
    + destruct (0 <? retryCount)%nat; trace_logic.
    + intros _. apply first_call_bind_here.
      * apply first_call_device_connect.
      * trace_logic.
  - intros err. destruct (maxRetries <? S retryCount)%nat; trace_logic.
Qed.

Lemma appends_connectLoop (fuel maxRetries : nat) (d : Device) :
  forall retryCount connectedDevice,
    appends (connectLoop adapter fuel maxRetries d retryCount connectedDevice).
Proof.
  induction fuel as [|fuel IH]; intros retryCount connectedDevice; cbn [connectLoop].
  - destruct (_ && _); trace_logic.
  - destruct (_ && _); [|trace_logic].
    apply emits_bind; [|intros turn; apply IH].
    eapply first_call_appends, first_call_connectAttempt.
Qed.

Lemma emits_verifyTopology : emits not_connect (verifyTopology adapter).
Proof. unfold verifyTopology. trace_logic. Qed.

Lemma emits_afterConnect (connectedDevice : option Device) :
  emits not_connect (afterConnect adapter connectedDevice).
Proof. unfold afterConnect. trace_logic. Qed.

Lemma appends_afterConnect (connectedDevice : option Device) :
  appends (afterConnect adapter connectedDevice).
Proof. eapply emits_appends, emits_afterConnect. Qed.

(** Whatever the adapter answers, [connectToDevice] calls [connect] on
    the device it is given, before any other call. *)
Lemma first_call_connectToDevice (maxRetries : nat) (d : Device) :
  first_call (Connect (id d)) (connectToDevice_retrying adapter maxRetries d).
Proof.
  unfold connectToDevice_retrying. apply first_call_try_catch; [|trace_logic].
  apply first_call_bind_later; [trace_logic|]. intros _.
  apply first_call_bind_here; [|intros cd; apply appends_afterConnect].
  replace (maxRetries + 2) with (S (maxRetries + 1)) by lia.
  cbn [connectLoop].
  replace ((0 <=? maxRetries)%nat) with true by (symmetry; apply Nat.leb_le; lia).
  cbn [andb]. apply first_call_bind_here.
  - apply first_call_connectAttempt.
  - intros turn. apply appends_connectLoop.
Qed.

End ConnectTrace.

(** ** The scanner selects by name (lines 195-211) *)

Lemma onScan_selects (adapter : Adapter) (d : Device) (h : nat) (w : World) :
  bleManagerRef w = true ->
  Js.truthy (hasMatchingName d) = true ->
  exists rest,
    trace (run (onScan adapter h None (Some d)) w)
    = trace w ++ ClearTimeout h :: StopDeviceScan :: Connect (id d) :: rest.
Proof.
  intros Hm Hn. unfold onScan. rewrite Hn. step. rewrite Hm. step.
  match goal with
  | |- context [connectToDevice adapter d ?w1] =>
      destruct (first_call_connectToDevice adapter maxRetries d w1) as [rest E]
  end.
  exists rest. unfold connectToDevice. rewrite E. step.
  now rewrite <- !app_assoc.
Qed.

Lemma onScan_ignores (adapter : Adapter) (d : Device) (h : nat) (w : World) :
  Js.truthy (hasMatchingName d) = false ->
  onScan adapter h None (Some d) w = (Returned tt, w).
Proof. intros Hn. unfold onScan. now rewrite Hn. Qed.

(** C6. For every scanned advertisement, the listener selects the device
    (it stops the scan and connects to it) if and only if its name or its
    local name equals or contains "BT05", case-sensitively; a device that
    matches on neither field is ignored: the listener leaves the world as
    it found it. *)
Theorem scanner_selects_iff_name_matches (adapter : Adapter) (d : Device) (h : nat)
    (w : World) :
  (Js.truthy (hasMatchingName d) = true
   <-> names_target (name d) \/ names_target (localName d))
  /\ (bleManagerRef w = true ->
      names_target (name d) \/ names_target (localName d) ->
      exists rest,
        trace (run (onScan adapter h None (Some d)) w)
        = trace w ++ ClearTimeout h :: StopDeviceScan :: Connect (id d) :: rest)
  /\ (~ (names_target (name d) \/ names_target (localName d)) ->
      onScan adapter h None (Some d) w = (Returned tt, w)).
Proof.
  pose proof (hasMatchingName_iff d) as H. split; [exact H|]. split.
  - intros Hm Hn. apply onScan_selects; [exact Hm | now apply H].
  - intros Hn. apply onScan_ignores.
    destruct (Js.truthy (hasMatchingName d)); [|reflexivity].
    elim Hn. now apply H.
Qed.

(** A device advertised as "HM-BT05-A" only in its local name is selected. *)
Lemma scanner_selects_local_name :
  exists rest,
    trace (run (onScan (peripheral (flaky 0) [ffe0] [ffe1 true true] (Resolves tt)) 1 None
                       (Some {| id := "01"; name := None; localName := Some "HM-BT05-A" |}))
               initial)
    = ClearTimeout 1 :: StopDeviceScan :: Connect "01" :: rest.
Proof.
  apply (proj1 (proj2 (scanner_selects_iff_name_matches
                         (peripheral (flaky 0) [ffe0] [ffe1 true true] (Resolves tt))
                         {| id := "01"; name := None; localName := Some "HM-BT05-A" |}
                         1 initial))).
  - reflexivity.
  - right. exists "HM-BT05-A". split; [reflexivity|]. right.
    exists "HM-", "-A". reflexivity.
Defined.

(** The match is case-sensitive: "bt05" is not selected. *)
Example scanner_ignores_lower_case :
  Js.truthy (hasMatchingName {| id := "02"; name := Some "bt05"; localName := Some "bt05" |})
  = false.
Proof. reflexivity. Qed.

(** ** The wire encoding: base64 there and back *)

Section Base64.

Import Buffer.

Local Ltac euclid := zify; Z.to_euclidean_division_equations; lia.

Lemma byte_of_to_N (b : byte) : byte_of_N (Byte.to_N b) = b.
Proof.
  unfold byte_of_N. pose proof (Byte.to_N_bounded b) as Hb.
  rewrite N.mod_small by lia. now rewrite Byte.of_to_N.
Qed.

Lemma to_N_byte_of_N (n : N) : (n < 256)%N -> Byte.to_N (byte_of_N n) = n.
Proof.
  intros Hn. unfold byte_of_N. rewrite N.mod_small by lia.
  destruct (Byte.of_N n) as [b|] eqn:E.
  - now apply Byte.to_of_N.
  - apply Byte.of_N_None_iff in E. lia.
Qed.

(** Three steps at a time. *)
Lemma list_ind3 {A} (P : list A -> Prop) :
  P [] -> (forall a, P [a]) -> (forall a b, P [a; b]) ->
  (forall a b c rest, P rest -> P (a :: b :: c :: rest)) ->
  forall l, P l.
Proof.
  intros H0 H1 H2 H3 l.
  enough (P l /\ (forall a, P (a :: l)) /\ (forall a b, P (a :: b :: l))) by tauto.
  induction l as [|x l [IH0 [IH1 IH2]]]; auto.
Qed.

Lemma digits_ok_all : forallb digits_ok (map N.of_nat (seq 0 64)) = true.
Proof. vm_compute. reflexivity. Qed.

Lemma digit_ok (n : N) :
  (n < 64)%N -> sextet (digit n) = Some n /\ Ascii.eqb (digit n) "="%char = false.
Proof.
  intros Hn. pose proof digits_ok_all as H. rewrite forallb_forall in H.
  specialize (H n). unfold digits_ok in H.
  destruct (sextet (digit n)) as [m|].
  - assert (In n (map N.of_nat (seq 0 64))) as Hin.
    { rewrite <- (N2Nat.id n). apply in_map, in_seq. lia. }
    apply H in Hin. apply andb_true_iff in Hin as [Hm He].
    apply N.eqb_eq in Hm. apply negb_true_iff in He. now subst m.
  - assert (In n (map N.of_nat (seq 0 64))) as Hin.
    { rewrite <- (N2Nat.id n). apply in_map, in_seq. lia. }
    apply H in Hin. discriminate.
Qed.

Lemma sextets_digit (n : N) (s : string) :
  (n < 64)%N -> sextets (String (digit n) s) = n :: sextets s.
Proof.
  intros Hn. destruct (digit_ok n Hn) as [Hs He]. cbn [sextets].
  now rewrite He, Hs.
Qed.

Lemma sextets_padding (s : string) : sextets (String "="%char s) = [].
Proof. reflexivity. Qed.

Lemma byte_of_N_eq (n : N) (b : byte) : n = Byte.to_N b -> byte_of_N n = b.
Proof. intros ->. apply byte_of_to_N. Qed.

(** Decoding undoes encoding, for every buffer. *)
Lemma from_base64_toString_base64 (buf : Buffer.t) :
  from_base64 (toString_base64 buf) = buf.
Proof.
  unfold from_base64. induction buf as [|a|a b|a b c rest IH] using list_ind3.
  - reflexivity.
  - cbn [toString_base64]. pose proof (Byte.to_N_bounded a) as Ha.
    rewrite !sextets_digit by euclid. change (sextets "==") with (@nil N).
    cbn [bytes_of_sextets]. f_equal. apply byte_of_N_eq. euclid.
  - cbn [toString_base64].
    pose proof (Byte.to_N_bounded a) as Ha. pose proof (Byte.to_N_bounded b) as Hb.
    rewrite !sextets_digit by euclid. change (sextets "=") with (@nil N).
    cbn [bytes_of_sextets].
    apply f_equal2; [apply byte_of_N_eq; euclid|].
    f_equal. apply byte_of_N_eq. euclid.
  - cbn [toString_base64].
    pose proof (Byte.to_N_bounded a) as Ha. pose proof (Byte.to_N_bounded b) as Hb.
    pose proof (Byte.to_N_bounded c) as Hc.
    rewrite !sextets_digit by euclid.
    cbn [bytes_of_sextets]. rewrite IH.
    apply f_equal2; [apply byte_of_N_eq; euclid|].
    apply f_equal2; [apply byte_of_N_eq; euclid|].
    f_equal. apply byte_of_N_eq. euclid.
Qed.

Lemma toString_ascii_from (s : string) :
  seven_bit s = true -> toString_ascii (from s) = s.
Proof.
  induction s as [|c s IH]; cbn [seven_bit from]; [reflexivity|].
  intros H. apply andb_true_iff in H as [Hc Hs]. apply N.ltb_lt in Hc.
  unfold utf8_char. apply N.ltb_lt in Hc as Hc'. rewrite Hc'.
  cbn [app toString_ascii]. rewrite (IH Hs).
  rewrite to_N_byte_of_N by lia. rewrite N.mod_small by lia.
  unfold JsString.code. now rewrite ascii_N_embedding.
Qed.

(** What is put on the wire reads back as the text it was made from. *)
Lemma wire_round_trip (command : string) :
  seven_bit command = true ->
  toString_ascii (from_base64 (wire command)) = command.
Proof.
  intros H. unfold wire. rewrite from_base64_toString_base64.
  now apply toString_ascii_from.
Qed.

End Base64.

(** C8. Encoding the actuator-on intent and decoding the wire text back
    yields exactly "ON" followed by a line feed, and the actuator-off intent
    yields "OFF" followed by a line feed; on the wire they are the base64
    texts "T04K" and "T0ZGCg==". *)
Theorem command_round_trip :
  Buffer.toString_ascii (Buffer.from_base64 (wire (command_of true)))
  = String "O" (String "N" (String "010" EmptyString))
  /\ Buffer.toString_ascii (Buffer.from_base64 (wire (command_of false)))
     = String "O" (String "F" (String "F" (String "010" EmptyString)))
  /\ wire (command_of true) = "T04K"%string
  /\ wire (command_of false) = "T0ZGCg=="%string.
Proof.
  split; [|split].
  - rewrite wire_round_trip; reflexivity.
  - rewrite wire_round_trip; reflexivity.
  - split; reflexivity.
Qed.

(** ** Notifications (lines 297-316) *)

Lemma onNotification_decoded (c : Characteristic.t) (v : string) (w : World) :
  Characteristic.value c = Some v -> v <> EmptyString ->
  onNotification None (Some c) w
  = let message := Buffer.toString_ascii (Buffer.from_base64 v) in
    let w1 := with_logs (logs w ++ [("Received: " ++ message)%string]) w in
    (Returned tt,
     if JsString.includes message "RAIN"
     then with_trace (trace w ++ [AlertAlert "Rain Detected!"]) w1
     else w1).
Proof.
  intros Hv Hne. unfold onNotification. rewrite Hv.
  destruct v as [|ch v]; [congruence|]. cbn [Js.truthy]. step.
  now destruct (JsString.includes _ "RAIN").
Qed.

(** A notification without a value, or with the empty value, is dropped:
    nothing is logged and no alert is raised (the guard of line 303). *)
Lemma onNotification_dropped (c : Characteristic.t) (w : World) :
  Characteristic.value c = None \/ Characteristic.value c = Some EmptyString ->
  onNotification None (Some c) w = (Returned tt, w).
Proof. intros [H|H]; unfold onNotification; now rewrite H. Qed.

(** C7, as the code has it. A notification is decoded when its value is
    present and not empty: then the ASCII text is logged as "Received: "
    and the text, whether or not it classifies, and the rain alert is
    raised if and only if the text contains "RAIN", case-sensitively.  A
    notification whose value is absent or empty is dropped: nothing is
    logged and nothing is raised. *)
Theorem notification_classified_by_keyword (c : Characteristic.t) (w : World) :
  let w' := run (onNotification None (Some c)) w in
  (forall v,
     Characteristic.value c = Some v -> v <> EmptyString ->
     let message := Buffer.toString_ascii (Buffer.from_base64 v) in
     logs w' = logs w ++ [("Received: " ++ message)%string]
     /\ (contains message "RAIN" -> trace w' = trace w ++ [AlertAlert "Rain Detected!"])
     /\ (~ contains message "RAIN" -> trace w' = trace w))
  /\ (Characteristic.value c = None \/ Characteristic.value c = Some EmptyString ->
      w' = w).
Proof.
  intros w'. split.
  - intros v Hv Hne message. subst w'. unfold run.
    rewrite (onNotification_decoded c v w Hv Hne). fold message.
    cbn [snd]. destruct (JsString.includes message "RAIN") eqn:E.
    + split; [reflexivity|]. split; [reflexivity|].
      intros Hn. apply includes_iff in E. contradiction.
    + split; [reflexivity|]. split; [|reflexivity].
      intros Hc. apply includes_iff in Hc. congruence.
  - intros H. subst w'. unfold run. now rewrite (onNotification_dropped c w H).
Qed.

(** The payloads "RAIN" + line feed and "xRAINy" raise the alert; "OK" +
    line feed does not, and is logged all the same. *)
Lemma notification_examples :
  trace (run (onNotification None (Some (notified ("RAIN" ++ LF)))) initial)
  = [AlertAlert "Rain Detected!"]
  /\ trace (run (onNotification None (Some (notified "xRAINy"))) initial)
     = [AlertAlert "Rain Detected!"]
  /\ trace (run (onNotification None (Some (notified ("OK" ++ LF)))) initial)
     = []
  /\ logs (run (onNotification None (Some (notified ("OK" ++ LF)))) initial)
     = ["Ready to connect..."; ("Received: OK" ++ LF)%string].
Proof.
  split; [|split; [|split]].
  - apply (proj1 (notification_classified_by_keyword (notified ("RAIN" ++ LF)) initial)
             (wire ("RAIN" ++ LF)));
      [reflexivity | discriminate | apply includes_iff; reflexivity].
  - apply (proj1 (notification_classified_by_keyword (notified "xRAINy") initial)
             (wire "xRAINy"));
      [reflexivity | discriminate | apply includes_iff; reflexivity].
  - apply (proj1 (notification_classified_by_keyword (notified ("OK" ++ LF)) initial)
             (wire ("OK" ++ LF)));
      [reflexivity | discriminate | apply includes_false_iff; reflexivity].
  - apply (proj1 (notification_classified_by_keyword (notified ("OK" ++ LF)) initial)
             (wire ("OK" ++ LF)));
      [reflexivity | discriminate].
Defined.

(** C7, as the claim states it, fails: the payload of no bytes decodes to
    the empty text, which does not contain "RAIN", and it is not
    delivered: the listener logs nothing and leaves the world as it
    was. *)
Lemma empty_notification_is_dropped :
  Characteristic.value (notified EmptyString) = Some EmptyString
  /\ Buffer.toString_ascii (Buffer.from_base64 EmptyString) = EmptyString
  /\ JsString.includes EmptyString "RAIN" = false
  /\ logs (run (onNotification None (Some (notified EmptyString))) initial) = logs initial
  /\ run (onNotification None (Some (notified EmptyString))) initial = initial.
Proof. repeat split. Qed.

(** ** The servo command (lines 350-423) *)

Section ToggleServo.

Variable adapter : Adapter.

Lemma writes_app (t1 t2 : list event) : writes (t1 ++ t2) = writes t1 ++ writes t2.
Proof. apply filter_app. Qed.

Lemma toggleServo_not_connected (w : World) :
  device w = None \/ isConnected w = false ->
  toggleServo adapter w
  = (Returned tt, with_logs (logs w ++ ["Not connected to device"%string]) w).
Proof.
  intros H. unfold toggleServo. step.
  destruct H as [-> | ->]; [reflexivity|].
  now destruct (device w).
Qed.

(** With the topology verified, [toggleServo] asks for the services and
    the characteristics, issues one write, and ends by what the adapter
    answers to the write. *)
Lemma toggleServo_verified (w : World) (d : Device) (c : Characteristic.t) :
  device w = Some d -> isConnected w = true -> topology_verified adapter c ->
  let w' := run (toggleServo adapter) w in
  let command := command_of (negb (servoState w)) in
  result (toggleServo adapter) w = Returned tt
  /\ match write_answer adapter c with
     | Resolves _ =>
         trace w' = trace w ++ [Services; CharacteristicsForService SERVICE_UUID;
                                write_call c (wire command)]
         /\ servoState w' = negb (servoState w)
         /\ device w' = device w /\ isConnected w' = true
     | Rejects e =>
         trace w' = trace w ++ [Services; CharacteristicsForService SERVICE_UUID;
                                write_call c (wire command)]
                            ++ (if link_lost e then [AlertAlert "Connection Lost"] else [])
         /\ servoState w' = servoState w
         /\ device w' = (if link_lost e then None else device w)
         /\ isConnected w' = negb (link_lost e)
     end.
Proof.
  intros Hd Hc [svcs [s [chars [Hs [Hfs [Hch Hfc]]]]]].
  unfold toggleServo, write_answer, write_call, link_lost. step.
  rewrite Hd, Hc, Hs. step. rewrite Hfs, Hch. step. rewrite Hfc.
  destruct (Characteristic.isWritableWithResponse c).
  - destruct (writeCharacteristicWithResponseForService adapter) as [[]|e]; step.
    + rewrite <- !app_assoc. now rewrite Hd.
    + destruct (_ || _); step; rewrite <- !app_assoc; cbn [app]; now rewrite ?Hd.
  - destruct (writeCharacteristicWithoutResponseForService adapter) as [[]|e]; step.
    + rewrite <- !app_assoc. now rewrite Hd.
    + destruct (_ || _); step; rewrite <- !app_assoc; cbn [app]; now rewrite ?Hd.
Qed.

(** Every way [toggleServo] can go, by the answers of the adapter. *)
Ltac toggle_cases w :=
  unfold toggleServo; step;
  destruct (device w) eqn:Hd; destruct (isConnected w) eqn:Hc; step;
  try (destruct (services adapter) as [svcs|es] eqn:Hs; step;
       [ destruct (find is_target_service svcs) as [s|] eqn:Hfs; step;
         [ destruct (characteristicsForService adapter) as [chars|ec] eqn:Hch; step;
           [ destruct (find is_target_characteristic chars) as [c|] eqn:Hfc; step;
             [ destruct (Characteristic.isWritableWithResponse c) eqn:Hw;
               [ destruct (writeCharacteristicWithResponseForService adapter)
                   as [[]|ew] eqn:Ha
               | destruct (writeCharacteristicWithoutResponseForService adapter)
                   as [[]|ew] eqn:Ha ];
               step
             | ]
           | ]
         | ]
       | ]);
  repeat match goal with
         | |- context [if ?b || ?b' then _ else _] => destruct (b || b'); step
         end.

(** [toggleServo] always returns: nothing escapes its [try]. *)
Lemma toggleServo_returns (w : World) : result (toggleServo adapter) w = Returned tt.
Proof. toggle_cases w; reflexivity. Qed.

(** The servo state moves only when a write was issued and resolved, and
    then that write is the last call made. *)
Lemma servoState_moves_after_write (w : World) :
  servoState (run (toggleServo adapter) w) <> servoState w ->
  exists c before,
    topology_verified adapter c
    /\ write_answer adapter c = Resolves tt
    /\ trace (run (toggleServo adapter) w)
       = before ++ [write_call c (wire (command_of (negb (servoState w))))].
Proof.
  toggle_cases w; intros Hne; try congruence.
  - exists c. eexists. split; [|split].
    + exists svcs, s, chars. auto.
    + unfold write_answer. now rewrite Hw.
    + unfold write_call. rewrite Hw. reflexivity.
  - exists c. eexists. split; [|split].
    + exists svcs, s, chars. auto.
    + unfold write_answer. now rewrite Hw.
    + unfold write_call. rewrite Hw. reflexivity.
Qed.

(** Every write of the servo state that [toggleServo] makes: none, or one,
    made when the three calls of the command, the write last, have been
    made and the write has resolved. *)
Lemma servoWrites_of_toggleServo (w : World) :
  (servoWrites (run (toggleServo adapter) w) = servoWrites w
   /\ servoState (run (toggleServo adapter) w) = servoState w)
  \/ exists c,
       topology_verified adapter c
       /\ write_answer adapter c = Resolves tt
       /\ trace (run (toggleServo adapter) w)
          = trace w ++ [Services; CharacteristicsForService SERVICE_UUID;
                        write_call c (wire (command_of (negb (servoState w))))]
       /\ servoWrites (run (toggleServo adapter) w)
          = servoWrites w ++ [(length (trace w) + 3, negb (servoState w))]
       /\ servoState (run (toggleServo adapter) w) = negb (servoState w).
Proof.
  toggle_cases w; try (left; split; reflexivity);
    right; exists c;
    (split; [exists svcs, s, chars; auto|]);
    (split; [unfold write_answer; now rewrite Hw|]);
    (split; [unfold write_call; rewrite Hw; now rewrite <- !app_assoc|]);
    (split; [|reflexivity]);
    rewrite !length_app; cbn [length]; rewrite <- !Nat.add_assoc; reflexivity.
Qed.

(** Without a verified topology no write is issued and the servo state is
    left as it was. *)
Lemma toggleServo_unverified (w : World) :
  (forall c, ~ topology_verified adapter c) ->
  writes (trace (run (toggleServo adapter) w)) = writes (trace w)
  /\ servoState (run (toggleServo adapter) w) = servoState w.
Proof.
  intros Hno.
  toggle_cases w; rewrite ?writes_app, ?app_nil_r; cbn [writes filter is_write app];
    rewrite ?app_nil_r; auto;
    try (exfalso; apply (Hno c); exists svcs, s, chars; auto).
Qed.

Lemma missing_not_verified (c : Characteristic.t) :
  topology_missing adapter -> ~ topology_verified adapter c.
Proof.
  intros [svcs [Hs [Hn | [chars [Hch Hn]]]]] [svcs' [s [chars' [Hs' [Hfs [Hch' Hfc]]]]]];
    congruence.
Qed.

(** With the service or the characteristic missing from discovery,
    [toggleServo] logs which one and returns; nothing else changes. *)
Lemma toggleServo_missing (w : World) (d : Device) :
  topology_missing adapter -> device w = Some d -> isConnected w = true ->
  logs (run (toggleServo adapter) w)
  = logs w ++ [("Sending command: "
                 ++ JsString.trim (command_of (negb (servoState w))))%string;
               missing_error adapter]
  /\ trace (run (toggleServo adapter) w)
     = trace w ++ Services :: (if service_found adapter
                               then [CharacteristicsForService SERVICE_UUID] else [])
  /\ device (run (toggleServo adapter) w) = device w
  /\ isConnected (run (toggleServo adapter) w) = isConnected w.
Proof.
  intros [svcs [Hs Hm]] Hd Hc. unfold missing_error, service_found. rewrite Hs.
  unfold toggleServo; step; rewrite Hd, Hc, Hs; step.
  destruct (find is_target_service svcs) eqn:Hfs; step.
  - destruct Hm as [Hn | [chars [Hch Hn]]]; [discriminate|].
    rewrite Hch. step. rewrite Hn. step. rewrite <- !app_assoc. now rewrite Hd, Hc.
  - rewrite <- !app_assoc. now rewrite Hd, Hc.
Qed.

End ToggleServo.

Lemma topology_verified_unique (adapter : Adapter) (c c' : Characteristic.t) :
  topology_verified adapter c -> topology_verified adapter c' -> c = c'.
Proof.
  intros [svcs [s [chars [Hs [Hfs [Hch Hfc]]]]]] [svcs' [s' [chars' [Hs' [Hfs' [Hch' Hfc']]]]]].
  congruence.
Qed.

Lemma writes_of_toggleServo (adapter : Adapter) (w : World) (d : Device)
    (c : Characteristic.t) :
  device w = Some d -> isConnected w = true -> topology_verified adapter c ->
  writes (trace (run (toggleServo adapter) w))
  = writes (trace w) ++ [write_call c (wire (command_of (negb (servoState w))))].
Proof.
  intros Hd Hc Hv. destruct (toggleServo_verified adapter w d c Hd Hc Hv) as [_ H].
  assert (writes [Services; CharacteristicsForService SERVICE_UUID;
                  write_call c (wire (command_of (negb (servoState w))))]
          = [write_call c (wire (command_of (negb (servoState w))))]) as Hw.
  { unfold write_call. now destruct (Characteristic.isWritableWithResponse c). }
  destruct (write_answer adapter c) as [[]|e].
  - destruct H as [-> _]. now rewrite writes_app, Hw.
  - destruct H as [-> _]. rewrite !writes_app, Hw.
    destruct (link_lost e); cbn [writes filter is_write]; now rewrite ?app_nil_r.
Qed.

(** C2, as the code has it. For every command sent over a verified
    topology exactly one write is issued, and its mode follows the flag
    isWritableWithResponse alone: a write with response when the flag is
    set, a write without response otherwise, whether or not the
    characteristic is writable without response.  No command is refused
    for want of a write capability. *)
Theorem write_mode_follows_withResponse (adapter : Adapter) (w : World) (d : Device)
    (c : Characteristic.t) :
  device w = Some d -> isConnected w = true -> topology_verified adapter c ->
  let payload := wire (command_of (negb (servoState w))) in
  result (toggleServo adapter) w = Returned tt
  /\ writes (trace (run (toggleServo adapter) w))
     = writes (trace w)
       ++ [if Characteristic.isWritableWithResponse c
           then WriteWithResponse SERVICE_UUID CHARACTERISTIC_UUID payload
           else WriteWithoutResponse SERVICE_UUID CHARACTERISTIC_UUID payload].
Proof.
  intros Hd Hc Hv payload. split.
  - apply toggleServo_returns.
  - apply (writes_of_toggleServo adapter w d c Hd Hc Hv).
Qed.

(** A characteristic that is writable without response only gets a write
    without response. *)
Lemma write_without_response_example :
  writes (trace (run (toggleServo (peripheral (flaky 0) [ffe0] [ffe1 false true]
                                              (Resolves tt)))
                     (connected false)))
  = [WriteWithoutResponse SERVICE_UUID CHARACTERISTIC_UUID "T04K"].
Proof.
  apply (write_mode_follows_withResponse
           (peripheral (flaky 0) [ffe0] [ffe1 false true] (Resolves tt))
           (connected false) bt05 (ffe1 false true)).
  - reflexivity.
  - reflexivity.
  - exists [ffe0], ffe0, [ffe1 false true]. repeat split.
Defined.

(** C2, as the claim states it, fails: a characteristic with neither write
    capability is written to, without response, and the command succeeds. *)
Lemma write_issued_without_capability :
  Characteristic.isWritableWithResponse (ffe1 false false) = false
  /\ Characteristic.isWritableWithoutResponse (ffe1 false false) = false
  /\ topology_verified (peripheral (flaky 0) [ffe0] [ffe1 false false] (Resolves tt))
                       (ffe1 false false)
  /\ writes (trace (run (toggleServo (peripheral (flaky 0) [ffe0] [ffe1 false false]
                                                 (Resolves tt)))
                        (connected false)))
     = [WriteWithoutResponse SERVICE_UUID CHARACTERISTIC_UUID "T04K"]
  /\ servoState (run (toggleServo (peripheral (flaky 0) [ffe0] [ffe1 false false]
                                              (Resolves tt)))
                     (connected false))
     = true.
Proof.
  split; [reflexivity|]. split; [reflexivity|]. split.
  - exists [ffe0], ffe0, [ffe1 false false]. repeat split.
  - split; reflexivity.
Qed.

(** C9. The servo state is written only after the write has resolved,
    never before.  Each call of [setServoState] is recorded with the
    number of calls made before it: [toggleServo] either writes the servo
    state not at all, or once, and then after its three calls, of which
    the write is the last and was resolved by the adapter, setting the
    negation of what the state was.  When the write is rejected, with
    whatever error, the servo state was not written, not even to be set
    back, and is what it was. *)
Theorem servoState_updated_only_after_write (adapter : Adapter) (w : World) :
  let w' := run (toggleServo adapter) w in
  let command := command_of (negb (servoState w)) in
  ((servoWrites w' = servoWrites w /\ servoState w' = servoState w)
   \/ exists c,
        topology_verified adapter c
        /\ write_answer adapter c = Resolves tt
        /\ trace w' = trace w ++ [Services; CharacteristicsForService SERVICE_UUID;
                                  write_call c (wire command)]
        /\ servoWrites w' = servoWrites w ++ [(length (trace w) + 3, negb (servoState w))]
        /\ servoState w' = negb (servoState w))
  /\ (forall c e,
        topology_verified adapter c -> write_answer adapter c = Rejects e ->
        servoState w' = servoState w /\ servoWrites w' = servoWrites w)
  /\ (servoState w' <> servoState w ->
      exists c before,
        topology_verified adapter c
        /\ write_answer adapter c = Resolves tt
        /\ trace w' = before ++ [write_call c (wire command)]).
Proof.
  intros w' command. subst w' command.
  pose proof (servoWrites_of_toggleServo adapter w) as H.
  split; [exact H|]. split; [|apply servoState_moves_after_write].
  intros c e Hv Ha.
  destruct H as [[Hw Hs] | [c' [Hv' [Ha' _]]]]; [now split|].
  rewrite (topology_verified_unique adapter c c' Hv Hv') in Ha. congruence.
Qed.

(** A write that fails leaves the servo state on and unwritten, whether
    the failure is a plain one or a lost link. *)
Lemma failed_write_keeps_servoState :
  servoState (run (toggleServo (peripheral (flaky 0) [ffe0] [ffe1 true true]
                                           (Rejects {| message := "Write failed" |})))
                  (connected true))
  = true
  /\ servoWrites (run (toggleServo (peripheral (flaky 0) [ffe0] [ffe1 true true]
                                               (Rejects {| message := "Write failed" |})))
                      (connected true))
     = servoWrites (connected true).
Proof.
  apply (proj1 (proj2 (servoState_updated_only_after_write
                         (peripheral (flaky 0) [ffe0] [ffe1 true true]
                                     (Rejects {| message := "Write failed" |}))
                         (connected true)))
           (ffe1 true true) {| message := "Write failed" |}).
  - exists [ffe0], ffe0, [ffe1 true true]. repeat split.
  - reflexivity.
Defined.



(** ** The retry loop (lines 226-251) *)

Section Retry.

Variable adapter : Adapter.

Lemma connectLoop_eq (fuel maxRetries : nat) (d : Device) (retryCount : nat)
    (connectedDevice : option Device) :
  connectLoop adapter fuel maxRetries d retryCount connectedDevice
  = if (retryCount <=? maxRetries)%nat
       && match connectedDevice with Some _ => false | None => true end
    then
      match fuel with
      | 0 => out_of_fuel
      | S fuel' =>
          bind (connectAttempt adapter maxRetries d retryCount connectedDevice)
               (fun turn => connectLoop adapter fuel' maxRetries d (fst turn) (snd turn))
      end
    else ret connectedDevice.
Proof. now destruct fuel. Qed.

Lemma same_session_refl (w : World) : same_session w w.
Proof. unfold same_session. tauto. Qed.

Lemma same_session_trans (w1 w2 w3 : World) :
  same_session w1 w2 -> same_session w2 w3 -> same_session w1 w3.
Proof. unfold same_session. intuition congruence. Qed.

Lemma attempts_app (t1 t2 : list event) : attempts (t1 ++ t2) = attempts t1 + attempts t2.
Proof. unfold attempts. now rewrite filter_app, length_app. Qed.

(** An attempt the adapter resolves: the loop variable is set. *)
Lemma connectAttempt_resolved (maxRetries : nat) (d : Device) (retryCount : nat)
    (connectedDevice : option Device) (w : World) (dev : Device) :
  connect adapter (attempts (trace w)) = Resolves dev ->
  exists w',
    connectAttempt adapter maxRetries d retryCount connectedDevice w
    = (Returned (retryCount, Some dev), w')
    /\ trace w' = trace w ++ [Connect (id d)]
    /\ same_session w w'.
Proof.
  intros H. unfold connectAttempt, device_connect.
  destruct (0 <? retryCount)%nat; step; rewrite H; step;
    (eexists; split; [reflexivity|]; split;
     [reflexivity | unfold same_session; cbn; tauto]).
Qed.

(** An attempt the adapter rejects: the error is thrown on when it was the
    last one allowed, and otherwise the loop waits a second and goes on. *)
Lemma connectAttempt_rejected (maxRetries : nat) (d : Device) (retryCount : nat)
    (connectedDevice : option Device) (w : World) (e : BleError) :
  connect adapter (attempts (trace w)) = Rejects e ->
  exists w',
    connectAttempt adapter maxRetries d retryCount connectedDevice w
    = (if (maxRetries <? S retryCount)%nat
       then Thrown e
       else Returned (S retryCount, connectedDevice), w')
    /\ trace w' = trace w ++ Connect (id d)
                            :: (if (maxRetries <? S retryCount)%nat then [] else [Wait 1000])
    /\ same_session w w'.
Proof.
  intros H. unfold connectAttempt, device_connect.
  destruct (0 <? retryCount)%nat; step; rewrite H; step;
    destruct (maxRetries <? S retryCount)%nat; step;
    (eexists; split; [reflexivity|]; split;
     [rewrite <- ?app_assoc; reflexivity | unfold same_session; cbn; tauto]).
Qed.

(** [k] rejected attempts and then a resolved one, all within the bound:
    the loop returns the device. *)
Lemma connectLoop_succeeds (maxRetries : nat) (d dev : Device) :
  forall k fuel retryCount w,
    retryCount + k <= maxRetries -> k < fuel ->
    (forall i, i < k -> exists e, connect adapter (attempts (trace w) + i) = Rejects e) ->
    connect adapter (attempts (trace w) + k) = Resolves dev ->
    exists w',
      connectLoop adapter fuel maxRetries d retryCount None w = (Returned (Some dev), w')
      /\ trace w' = trace w ++ failed_attempts d k ++ [Connect (id d)]
      /\ same_session w w'.
Proof.
  induction k as [|k IH]; intros fuel retryCount w Hle Hfuel Hfail Hok.
  - destruct fuel as [|fuel]; [lia|]. rewrite connectLoop_eq.
    replace (retryCount <=? maxRetries)%nat with true by (symmetry; apply Nat.leb_le; lia).
    cbn [andb]. rewrite Nat.add_0_r in Hok.
    destruct (connectAttempt_resolved maxRetries d retryCount None w dev Hok)
      as [w1 [E [T S1]]].
    unfold bind. rewrite E. cbn [fst snd]. rewrite connectLoop_eq, andb_false_r.
    exists w1. now split.
  - destruct fuel as [|fuel]; [lia|]. rewrite connectLoop_eq.
    replace (retryCount <=? maxRetries)%nat with true by (symmetry; apply Nat.leb_le; lia).
    cbn [andb]. destruct (Hfail 0 ltac:(lia)) as [e He]. rewrite Nat.add_0_r in He.
    destruct (connectAttempt_rejected maxRetries d retryCount None w e He)
      as [w1 [E [T S1]]].
    replace (maxRetries <? S retryCount)%nat with false in E, T
      by (symmetry; apply Nat.ltb_ge; lia).
    unfold bind. rewrite E. cbn [fst snd].
    assert (attempts (trace w1) = S (attempts (trace w))) as Hn.
    { rewrite T, attempts_app. cbn. lia. }
    destruct (IH fuel (S retryCount) w1) as [w2 [E2 [T2 S2]]]; try lia.
    + intros i Hi. rewrite Hn. replace (S (attempts (trace w)) + i)
        with (attempts (trace w) + S i) by lia. apply Hfail. lia.
    + rewrite Hn. now replace (S (attempts (trace w)) + k)
        with (attempts (trace w) + S k) by lia.
    + exists w2. split; [exact E2|]. split.
      * rewrite T2, T. rewrite <- app_assoc. reflexivity.
      * eapply same_session_trans; eassumption.
Qed.

(** Every allowed attempt rejected: the loop throws the last error. *)
Lemma connectLoop_exhausted (maxRetries : nat) (d : Device) (last : BleError) :
  forall n fuel retryCount w,
    retryCount + n = maxRetries -> n < fuel ->
    (forall i, i < n -> exists e, connect adapter (attempts (trace w) + i) = Rejects e) ->
    connect adapter (attempts (trace w) + n) = Rejects last ->
    exists w',
      connectLoop adapter fuel maxRetries d retryCount None w = (Thrown last, w')
      /\ trace w' = trace w ++ failed_attempts d n ++ [Connect (id d)]
      /\ same_session w w'.
Proof.
  induction n as [|n IH]; intros fuel retryCount w Hle Hfuel Hfail Hlast.
  - destruct fuel as [|fuel]; [lia|]. rewrite connectLoop_eq.
    replace (retryCount <=? maxRetries)%nat with true by (symmetry; apply Nat.leb_le; lia).
    cbn [andb]. rewrite Nat.add_0_r in Hlast.
    destruct (connectAttempt_rejected maxRetries d retryCount None w last Hlast)
      as [w1 [E [T S1]]].
    replace (maxRetries <? S retryCount)%nat with true in E, T
      by (symmetry; apply Nat.ltb_lt; lia).
    unfold bind. rewrite E. exists w1. now split.
  - destruct fuel as [|fuel]; [lia|]. rewrite connectLoop_eq.
    replace (retryCount <=? maxRetries)%nat with true by (symmetry; apply Nat.leb_le; lia).
    cbn [andb]. destruct (Hfail 0 ltac:(lia)) as [e He]. rewrite Nat.add_0_r in He.
    destruct (connectAttempt_rejected maxRetries d retryCount None w e He)
      as [w1 [E [T S1]]].
    replace (maxRetries <? S retryCount)%nat with false in E, T
      by (symmetry; apply Nat.ltb_ge; lia).
    unfold bind. rewrite E. cbn [fst snd].
    assert (attempts (trace w1) = S (attempts (trace w))) as Hn.
    { rewrite T, attempts_app. cbn. lia. }
    destruct (IH fuel (S retryCount) w1) as [w2 [E2 [T2 S2]]]; try lia.
    + intros i Hi. rewrite Hn. replace (S (attempts (trace w)) + i)
        with (attempts (trace w) + S i) by lia. apply Hfail. lia.
    + rewrite Hn. now replace (S (attempts (trace w)) + n)
        with (attempts (trace w) + S n) by lia.
    + exists w2. split; [exact E2|]. split.
      * rewrite T2, T. rewrite <- app_assoc. reflexivity.
      * eapply same_session_trans; eassumption.
Qed.

(** Whatever the adapter answers, the loop ends within its fuel and makes
    no more attempts than the turns it has left. *)
Lemma connectLoop_bounded (maxRetries : nat) (d : Device) :
  forall fuel retryCount connectedDevice w,
    S maxRetries - retryCount <= fuel ->
    result (connectLoop adapter fuel maxRetries d retryCount connectedDevice) w <> OutOfFuel
    /\ attempts (trace (run (connectLoop adapter fuel maxRetries d retryCount connectedDevice) w))
       <= attempts (trace w) + (S maxRetries - retryCount).
Proof.
  induction fuel as [|fuel IH]; intros retryCount connectedDevice w Hfuel;
    rewrite connectLoop_eq; unfold run, result;
    (destruct (retryCount <=? maxRetries)%nat eqn:Hrc; cbn [andb];
     [|cbn; split; [discriminate | lia]]);
    (destruct connectedDevice as [cd|]; [cbn; split; [discriminate | lia]|]);
    apply Nat.leb_le in Hrc; [lia|].
  unfold bind. destruct (connect adapter (attempts (trace w))) as [dev|e] eqn:Hc.
  - destruct (connectAttempt_resolved maxRetries d retryCount None w dev Hc)
      as [w1 [E [T S1]]].
    rewrite E. cbn [fst snd]. rewrite connectLoop_eq, andb_false_r.
    unfold ret. cbn [fst snd]. split; [discriminate|]. rewrite T, attempts_app.
    change (attempts [Connect (id d)]) with 1. lia.
  - destruct (connectAttempt_rejected maxRetries d retryCount None w e Hc)
      as [w1 [E [T S1]]].
    rewrite E. destruct (maxRetries <? S retryCount)%nat eqn:Hlast.
    + cbn [fst snd]. split; [discriminate|]. rewrite T, attempts_app.
      change (attempts [Connect (id d)]) with 1. lia.
    + apply Nat.ltb_ge in Hlast. cbn [fst snd].
      destruct (IH (S retryCount) None w1 ltac:(lia)) as [R B].
      unfold run, result in R, B. split; [exact R|].
      rewrite T, attempts_app in B.
      change (attempts [Connect (id d); Wait 1000]) with 1 in B. lia.
Qed.

End Retry.

(** ** Handlers that end *)

Section Halting.

Lemma quiet_halts {A} (c : M A) : quiet c -> halts c.
Proof. intros H w. destruct (H w) as [a [w' [E _]]]. now rewrite E. Qed.

Lemma halts_throw {A} (e : BleError) : halts (@throw A e).
Proof. intros w. discriminate. Qed.

Lemma halts_emit (e : event) : halts (emit e).
Proof. intros w. discriminate. Qed.

Lemma halts_await {A} (e : event) (a : answer A) : halts (await e a).
Proof. intros w. now destruct a. Qed.

Lemma halts_bind {A B} (c : M A) (k : A -> M B) :
  halts c -> (forall a, halts (k a)) -> halts (bind c k).
Proof.
  intros Hc Hk w. specialize (Hc w). unfold bind.
  destruct (c w) as [[a | e |] w1]; cbn in *; [apply Hk | discriminate | congruence].
Qed.

Lemma halts_try_catch {A} (body : M A) (handler : BleError -> M A) :
  halts body -> (forall e, halts (handler e)) -> halts (try_catch body handler).
Proof.
  intros Hb Hh w. specialize (Hb w). unfold try_catch.
  destruct (body w) as [[a | e |] w1]; cbn in *; [discriminate | apply Hh | congruence].
Qed.

End Halting.

Ltac halts_logic :=
  repeat first
    [ progress intros
    | apply halts_bind
    | apply halts_try_catch
    | apply halts_throw
    | apply halts_emit
    | apply halts_await
    | apply quiet_halts; solve [trace_logic]
    | match goal with
      | |- halts (match ?x with _ => _ end) => destruct x
      end ].

Section ConnectToDevice.

Variable adapter : Adapter.

Lemma halts_afterConnect (connectedDevice : option Device) :
  halts (afterConnect adapter connectedDevice).
Proof. unfold afterConnect, verifyTopology. halts_logic. Qed.

Lemma bind_returned {A B} (c : M A) (k : A -> M B) (w w1 : World) (a : A) :
  c w = (Returned a, w1) -> bind c k w = k a w1.
Proof. intros E. unfold bind. now rewrite E. Qed.

Lemma bind_thrown {A B} (c : M A) (k : A -> M B) (w w1 : World) (e : BleError) :
  c w = (Thrown e, w1) -> bind c k w = (Thrown e, w1).
Proof. intros E. unfold bind. now rewrite E. Qed.

(** How [connectToDevice] ends, by how the loop and the rest end. *)
Lemma connectToDevice_ends (maxRetries : nat) (d : Device) (w : World) :
  match connectLoop adapter (maxRetries + 2) maxRetries d 0 None (connecting d w) with
  | (Returned connectedDevice, w1) =>
      match afterConnect adapter connectedDevice w1 with
      | (Returned _, w2) =>
          connectToDevice_retrying adapter maxRetries d w = (Returned tt, w2)
      | (Thrown e, w2) =>
          connectToDevice_retrying adapter maxRetries d w
          = (Returned tt, connection_failed e w2)
      | (OutOfFuel, _) => False
      end
  | (Thrown e, w1) =>
      connectToDevice_retrying adapter maxRetries d w = (Returned tt, connection_failed e w1)
  | (OutOfFuel, _) => False
  end.
Proof.
  pose proof (connectLoop_bounded adapter maxRetries d (maxRetries + 2) 0 None
                                  (connecting d w) ltac:(lia)) as [Hr _].
  unfold result in Hr. unfold connectToDevice_retrying.
  destruct (connectLoop adapter (maxRetries + 2) maxRetries d 0 None (connecting d w))
    as [[cd | e |] w1] eqn:EL; cbn [fst] in Hr; [| |congruence].
  - pose proof (halts_afterConnect cd w1) as Ha.
    destruct (afterConnect adapter cd w1) as [[[] | e |] w2] eqn:EA; cbn [fst] in Ha;
      [| |congruence].
    + unfold try_catch, bind at 1. step. fold (connecting d w).
      unfold bind. now rewrite EL, EA.
    + unfold try_catch, bind at 1. step. fold (connecting d w).
      unfold bind. now rewrite EL, EA.
  - unfold try_catch, bind at 1. step. fold (connecting d w).
    unfold bind. now rewrite EL.
Qed.

Lemma first_call_afterConnect (dev : Device) :
  first_call DiscoverAllServicesAndCharacteristics (afterConnect adapter (Some dev)).
Proof.
  unfold afterConnect. apply first_call_bind_later; [trace_logic|]. intros _.
  apply first_call_bind_here; [apply first_call_await|]. intros discoveredDevice.
  apply (emits_appends not_connect). trace_logic.
Qed.

(** After the loop: discovery comes first, and no further [connect]. *)
Lemma afterConnect_calls (dev : Device) (w : World) :
  exists rest,
    trace (snd (afterConnect adapter (Some dev) w))
    = trace w ++ DiscoverAllServicesAndCharacteristics :: rest
    /\ attempts (trace (snd (afterConnect adapter (Some dev) w))) = attempts (trace w).
Proof.
  destruct (first_call_afterConnect dev w) as [rest E]. exists rest. split; [exact E|].
  apply emits_not_connect_attempts, emits_afterConnect.
Qed.

Lemma attempts_failed_attempts (d : Device) (k : nat) : attempts (failed_attempts d k) = k.
Proof.
  induction k as [|k IH]; [reflexivity|]. cbn [failed_attempts].
  change (Connect (id d) :: Wait 1000 :: failed_attempts d k)
    with ([Connect (id d); Wait 1000] ++ failed_attempts d k).
  rewrite attempts_app, IH. reflexivity.
Qed.

End ConnectToDevice.

(** C3. A connect operation attempts the connection at most
    maxRetries + 1 times, whatever the adapter answers, and always ends.
    If the adapter rejects the first k attempts, k <= maxRetries, and
    resolves the next, the calls are k times (connect, wait 1000 ms), then
    the connect that succeeds, then discovery: the operation proceeds.  If
    it rejects all maxRetries + 1 attempts, the calls are maxRetries times
    (connect, wait 1000 ms) and one last connect, nothing follows, and the
    error of the last attempt is the one reported, with the device cleared
    and the connected flag false. *)
Theorem connect_retries_bounded (adapter : Adapter) (maxRetries : nat) (d : Device)
    (w : World) :
  let w' := run (connectToDevice_retrying adapter maxRetries d) w in
  let n0 := attempts (trace w) in
  result (connectToDevice_retrying adapter maxRetries d) w = Returned tt
  /\ attempts (trace w') <= n0 + (maxRetries + 1)
  /\ (forall k dev,
        k <= maxRetries ->
        (forall i, i < k -> exists e, connect adapter (n0 + i) = Rejects e) ->
        connect adapter (n0 + k) = Resolves dev ->
        exists rest,
          trace w' = trace w ++ failed_attempts d k
                             ++ Connect (id d) :: DiscoverAllServicesAndCharacteristics :: rest
          /\ attempts (trace w') = n0 + (k + 1))
  /\ (forall last,
        (forall i, i < maxRetries -> exists e, connect adapter (n0 + i) = Rejects e) ->
        connect adapter (n0 + maxRetries) = Rejects last ->
        trace w' = trace w ++ failed_attempts d maxRetries ++ [Connect (id d)]
        /\ (exists before,
               logs w' = before ++ [("Connection error: " ++ message last)%string])
        /\ device w' = None /\ isConnected w' = false).
Proof.
  intros w' n0. subst w'. unfold run, result.
  pose proof (connectToDevice_ends adapter maxRetries d w) as H.
  assert (trace (connecting d w) = trace w) as Tc by reflexivity.
  split; [|split; [|split]].
  - destruct (connectLoop _ _ _ _ _ _ _) as [[cd | e |] w1]; [| |contradiction].
    + destruct (afterConnect _ _ _) as [[[] | e |] w2]; [| |contradiction]; now rewrite H.
    + now rewrite H.
  - pose proof (connectLoop_bounded adapter maxRetries d (maxRetries + 2) 0 None
                                    (connecting d w) ltac:(lia)) as [_ Hb].
    unfold run in Hb. rewrite Tc in Hb. fold n0 in Hb.
    destruct (connectLoop _ _ _ _ _ _ _) as [[cd | e |] w1]; [| |contradiction];
      cbn [snd] in Hb.
    + pose proof (emits_not_connect_attempts _ w1 (emits_afterConnect adapter cd)) as Ha.
      destruct (afterConnect _ _ _) as [[[] | e |] w2]; [| |contradiction];
        rewrite H; cbn [snd connection_failed trace with_device with_isConnected with_logs] in *;
        lia.
    + rewrite H. cbn [snd connection_failed trace with_device with_isConnected with_logs].
      lia.
  - intros k dev Hk Hfail Hok.
    destruct (connectLoop_succeeds adapter maxRetries d dev k (maxRetries + 2) 0
                                   (connecting d w) ltac:(lia) ltac:(lia))
      as [w1 [E [T _]]]; [now rewrite Tc | now rewrite Tc |].
    rewrite E in H. destruct (afterConnect_calls adapter dev w1) as [rest [Ea Na]].
    exists rest.
    assert (attempts (trace w1) = n0 + (k + 1)) as N1.
    { rewrite T, Tc, !attempts_app, attempts_failed_attempts. cbn. fold n0. lia. }
    destruct (afterConnect _ _ _) as [[[] | e |] w2]; [| |contradiction];
      rewrite H; cbn [snd connection_failed trace with_device with_isConnected with_logs] in *;
      rewrite Ea, T, Tc, <- !app_assoc; split; try reflexivity;
      rewrite <- N1, <- Na, Ea, T, Tc, <- !app_assoc; reflexivity.
  - intros last Hfail Hlast.
    destruct (connectLoop_exhausted adapter maxRetries d last maxRetries (maxRetries + 2) 0
                                    (connecting d w) ltac:(lia) ltac:(lia))
      as [w1 [E [T _]]]; [now rewrite Tc | now rewrite Tc |].
    rewrite E in H. rewrite H. cbn [snd]. unfold connection_failed. step.
    rewrite T, Tc. split; [reflexivity|]. split; [|split; reflexivity].
    now exists (logs w1).
Qed.

(** With maxRetries = 2 as in the source: two rejected attempts and a third
    that resolves connect and go on to discovery; three rejected attempts
    end the operation with the third error. *)
Lemma connect_retries_example :
  (exists rest,
     trace (run (connectToDevice (peripheral (flaky 2) [ffe0] [ffe1 true true] (Resolves tt))
                                 bt05)
                initial)
     = Connect (id bt05) :: Wait 1000 :: Connect (id bt05) :: Wait 1000
         :: Connect (id bt05) :: DiscoverAllServicesAndCharacteristics :: rest
     /\ attempts (trace (run (connectToDevice
                                (peripheral (flaky 2) [ffe0] [ffe1 true true] (Resolves tt))
                                bt05)
                             initial))
        = 3)
  /\ (trace (run (connectToDevice (peripheral (flaky 3) [ffe0] [ffe1 true true] (Resolves tt))
                                  bt05)
                 initial)
      = [Connect (id bt05); Wait 1000; Connect (id bt05); Wait 1000; Connect (id bt05)]
      /\ (exists before,
            logs (run (connectToDevice
                         (peripheral (flaky 3) [ffe0] [ffe1 true true] (Resolves tt)) bt05)
                      initial)
            = before ++ ["Connection error: Operation timed out"%string])
      /\ device (run (connectToDevice
                        (peripheral (flaky 3) [ffe0] [ffe1 true true] (Resolves tt)) bt05)
                     initial)
         = None
      /\ isConnected (run (connectToDevice
                             (peripheral (flaky 3) [ffe0] [ffe1 true true] (Resolves tt)) bt05)
                          initial)
         = false).
Proof.
  split.
  - apply (proj1 (proj2 (proj2 (connect_retries_bounded
                                  (peripheral (flaky 2) [ffe0] [ffe1 true true] (Resolves tt))
                                  maxRetries bt05 initial)))
             2 bt05).
    + unfold maxRetries. lia.
    + intros i Hi. destruct i as [|[|i]]; [eexists; reflexivity | eexists; reflexivity | lia].
    + reflexivity.
  - apply (proj2 (proj2 (proj2 (connect_retries_bounded
                                  (peripheral (flaky 3) [ffe0] [ffe1 true true] (Resolves tt))
                                  maxRetries bt05 initial)))
             {| message := "Operation timed out" |}).
    + intros i Hi. unfold maxRetries in Hi.
      destruct i as [|[|i]]; [eexists; reflexivity | eexists; reflexivity | lia].
    + reflexivity.
Defined.

(** ** The topology check and the subscription (lines 261-317) *)

Section Verification.

Variable adapter : Adapter.

Lemma forEach_logs {A} (f : A -> M unit) (g : A -> string) (l : list A) :
  (forall x w, f x w = (Returned tt, with_logs (logs w ++ [g x]) w)) ->
  forall w, exists w',
    forEach l f w = (Returned tt, w')
    /\ trace w' = trace w /\ same_session w w' /\ logs w' = logs w ++ map g l.
Proof.
  intros Hf. induction l as [|x l IH]; intros w; cbn [forEach map].
  - exists w. rewrite app_nil_r. repeat split.
  - unfold bind. rewrite Hf. destruct (IH (with_logs (logs w ++ [g x]) w))
      as [w' [E [T [S L]]]].
    exists w'. rewrite E. split; [reflexivity|]. split; [exact T|]. split.
    + unfold same_session in *. cbn in S. exact S.
    + rewrite L. cbn. now rewrite <- app_assoc.
Qed.

(** With the service or the characteristic missing, the check of
    [connectToDevice] logs the warning that names it, and returns. *)
Lemma verifyTopology_missing (w : World) :
  topology_missing adapter ->
  exists w' calls added,
    verifyTopology adapter w = (Returned tt, w')
    /\ trace w' = trace w ++ calls /\ same_session w w'
    /\ logs w' = logs w ++ added
    /\ In (missing_warning adapter) added.
Proof.
  intros [svcs [Hs Hm]]. unfold missing_warning, service_found. rewrite Hs.
  unfold verifyTopology. step. rewrite Hs. step.
  destruct (find is_target_service svcs) as [s|] eqn:Hfs; step.
  - destruct Hm as [Hm | [chars [Hch Hfc]]]; [discriminate|].
    rewrite Hch. step. rewrite Hfc. step.
    match goal with
    | |- context [forEach chars ?f ?w0] =>
        destruct (forEach_logs f (fun c => ("Available characteristic: "
                                              ++ Characteristic.uuid c)%string)
                               chars ltac:(reflexivity) w0)
          as [w' [E [T [S L]]]]
    end.
    exists w'. eexists. eexists. rewrite E.
    split; [reflexivity|]. split; [rewrite T; step; rewrite <- app_assoc; reflexivity|].
    split; [unfold same_session in *; cbn in S; exact S|].
    split; [rewrite L; step; rewrite <- !app_assoc; reflexivity|].
    cbn [app In]. tauto.
  - match goal with
    | |- context [forEach svcs ?f ?w0] =>
        destruct (forEach_logs f (fun s => ("Available service: " ++ Service.uuid s)%string)
                               svcs ltac:(reflexivity) w0)
          as [w' [E [T [S L]]]]
    end.
    exists w'. eexists. eexists. rewrite E.
    split; [reflexivity|]. split; [rewrite T; step; reflexivity|].
    split; [unfold same_session in *; cbn in S; exact S|].
    split; [rewrite L; step; rewrite <- !app_assoc; reflexivity|].
    cbn [app In]. tauto.
Qed.

(** Once connected and discovered, [connectToDevice] subscribes whether or
    not the check found the service and the characteristic. *)
Lemma afterConnect_subscribes (dev discovered : Device) (w : World) :
  discoverAllServicesAndCharacteristics adapter = Resolves discovered ->
  topology_missing adapter ->
  exists w' before added,
    afterConnect adapter (Some dev) w = (Returned tt, w')
    /\ trace w' = before ++ [subscribe; OnDisconnected]
    /\ device w' = Some discovered /\ isConnected w' = true
    /\ logs w' = logs w ++ added
    /\ In (missing_warning adapter) added.
Proof.
  intros Hd Hm. unfold afterConnect. step. rewrite Hd. step.
  match goal with
  | |- context [verifyTopology adapter ?w0] =>
      destruct (verifyTopology_missing w0 Hm) as [w1 [calls [added [E [T [S [L Hin]]]]]]]
  end.
  rewrite E. eexists. eexists. eexists.
  split; [reflexivity|]. step. split; [rewrite <- app_assoc; reflexivity|].
  split; [reflexivity|]. split; [reflexivity|].
  split; [rewrite L; step; rewrite <- !app_assoc; reflexivity|].
  cbn [app In]. tauto.
Qed.

End Verification.

(** ** The ways a session ends (lines 319-347 and 401-422) *)

(** The disconnect listener clears the device, the connected flag and the
    servo state. *)
Lemma onDisconnected_resets (error : option BleError) (disconnectedDevice : option Device)
    (w : World) :
  device (run (onDisconnected error disconnectedDevice) w) = None
  /\ isConnected (run (onDisconnected error disconnectedDevice) w) = false
  /\ servoState (run (onDisconnected error disconnectedDevice) w) = false.
Proof. unfold onDisconnected. step. repeat split. Qed.

(** So does [disconnectDevice] when [cancelConnection] is rejected. *)
Lemma disconnectDevice_rejected_resets (adapter : Adapter) (w : World) (d : Device)
    (e : BleError) :
  device w = Some d -> cancelConnection adapter = Rejects e ->
  device (run (disconnectDevice adapter) w) = None
  /\ isConnected (run (disconnectDevice adapter) w) = false
  /\ servoState (run (disconnectDevice adapter) w) = false.
Proof.
  intros Hd Hc. unfold disconnectDevice. step. rewrite Hd, Hc. step. repeat split.
Qed.

(** When [cancelConnection] resolves, [disconnectDevice] itself changes
    nothing but the log: the state is cleared by the disconnect listener,
    which the adapter calls. *)
Lemma disconnectDevice_resolved (adapter : Adapter) (w : World) (d : Device) :
  device w = Some d -> cancelConnection adapter = Resolves tt ->
  same_session w (run (disconnectDevice adapter) w)
  /\ trace (run (disconnectDevice adapter) w) = trace w ++ [CancelConnection].
Proof.
  intros Hd Hc. unfold disconnectDevice. step. rewrite Hd, Hc. step.
  split; [unfold same_session; cbn; tauto | reflexivity].
Qed.

(** A write rejected as a lost link clears the device and the connected
    flag, and leaves the servo state as it was. *)
Lemma toggleServo_link_lost (adapter : Adapter) (w : World) (d : Device)
    (c : Characteristic.t) (e : BleError) :
  device w = Some d -> isConnected w = true -> topology_verified adapter c ->
  write_answer adapter c = Rejects e -> link_lost e = true ->
  device (run (toggleServo adapter) w) = None
  /\ isConnected (run (toggleServo adapter) w) = false
  /\ servoState (run (toggleServo adapter) w) = servoState w.
Proof.
  intros Hd Hc Hv Ha Hl.
  destruct (toggleServo_verified adapter w d c Hd Hc Hv) as [_ H].
  rewrite Ha, Hl in H. tauto.
Qed.

(** C4, where the code departs from it. The servo is on and the write is
    rejected with "Device was disconnected": [toggleServo] clears the
    device and the connected flag and raises the "Connection Lost" alert,
    and the servo state stays on. *)
Theorem link_loss_keeps_servoState :
  let adapter :=
    peripheral (flaky 0) [ffe0] [ffe1 true true]
               (Rejects {| message := "Device was disconnected" |}) in
  let w := run (toggleServo adapter) (connected true) in
  device w = None
  /\ isConnected w = false
  /\ servoState w = true
  /\ trace w = [Services; CharacteristicsForService SERVICE_UUID;
                WriteWithResponse SERVICE_UUID CHARACTERISTIC_UUID "T0ZGCg==";
                AlertAlert "Connection Lost"].
Proof.
  intros adapter w.
  assert (topology_verified adapter (ffe1 true true)) as Hv.
  { exists [ffe0], ffe0, [ffe1 true true]. repeat split. }
  destruct (toggleServo_link_lost adapter (connected true) bt05 (ffe1 true true)
                                  {| message := "Device was disconnected" |}
                                  eq_refl eq_refl Hv eq_refl eq_refl)
    as [Hd [Hc Hs]].
  split; [exact Hd|]. split; [exact Hc|]. split; [exact Hs|]. reflexivity.
Qed.

(** ** The ways a scan ends (lines 171-213) *)

(** The timeout stops the scan. *)
Lemma onScanTimeout_stops (w : World) :
  bleManagerRef w = true ->
  trace (run onScanTimeout w) = trace w ++ [StopDeviceScan]
  /\ scanListener (run onScanTimeout w) = None
  /\ isScanning (run onScanTimeout w) = false.
Proof. intros H. unfold onScanTimeout. step. rewrite H. step. repeat split. Qed.

(** A match stops the scan before it connects. *)
Lemma onScan_match_stops (adapter : Adapter) (d : Device) (h : nat) (w : World) :
  bleManagerRef w = true -> Js.truthy (hasMatchingName d) = true ->
  In StopDeviceScan (trace (run (onScan adapter h None (Some d)) w)).
Proof.
  intros Hm Hn. destruct (onScan_selects adapter d h w Hm Hn) as [rest E].
  rewrite E. rewrite in_app_iff. right. cbn. tauto.
Qed.

(** A scan error cancels the timeout and clears the scanning flag; it
    makes no other call, and the scan listener stays with the adapter. *)
Lemma onScan_error (adapter : Adapter) (h : nat) (e : BleError)
    (scannedDevice : option Device) (w : World) :
  trace (run (onScan adapter h (Some e) scannedDevice) w) = trace w ++ [ClearTimeout h]
  /\ timers (run (onScan adapter h (Some e) scannedDevice) w)
     = remove Nat.eq_dec h (timers w)
  /\ scanListener (run (onScan adapter h (Some e) scannedDevice) w) = scanListener w
  /\ isScanning (run (onScan adapter h (Some e) scannedDevice) w) = false.
Proof. unfold onScan. step. repeat split. Qed.

(** A timeout that was cancelled does nothing when its time comes. *)
Lemma timerFires_cancelled (handle : nat) (w : World) :
  existsb (Nat.eqb handle) (timers w) = false ->
  timerFires handle w = (Returned tt, w).
Proof. intros H. unfold timerFires. step. now rewrite H. Qed.

(** A timeout that is pending stops the scan when its time comes. *)
Lemma timerFires_pending (handle : nat) (w : World) :
  existsb (Nat.eqb handle) (timers w) = true -> bleManagerRef w = true ->
  trace (run (timerFires handle) w) = trace w ++ [StopDeviceScan]
  /\ scanListener (run (timerFires handle) w) = None
  /\ isScanning (run (timerFires handle) w) = false.
Proof.
  intros H Hm. unfold timerFires, onScanTimeout. step. rewrite H. step. rewrite Hm. step.
  repeat split.
Qed.

(** [startScan] on a ready adapter: the flag is set, the timeout is
    pending and the listener is with the adapter. *)
Lemma startScan_starts :
  let adapter := peripheral (flaky 0) [ffe0] [ffe1 true true] (Resolves tt) in
  let w := run (startScan adapter) initial in
  trace w = [GetState; SetTimeout 1 15000; StartDeviceScan]
  /\ timers w = [1]
  /\ scanListener w = Some 1
  /\ isScanning w = true.
Proof. repeat split. Qed.

(** C5, where the code departs from it. A scan is started and the adapter
    reports an error to the listener: the scanning flag is cleared and the
    timeout cancelled, stopDeviceScan is never called, the listener is
    still with the adapter, and the timeout that would have stopped the
    scan does nothing when its time comes. *)
Theorem scan_error_never_stops_scan :
  let adapter := peripheral (flaky 0) [ffe0] [ffe1 true true] (Resolves tt) in
  let scanning := run (startScan adapter) initial in
  let w := run (onScan adapter 1 (Some {| message := "BluetoothLE is powered off" |}) None)
               scanning in
  trace w = [GetState; SetTimeout 1 15000; StartDeviceScan; ClearTimeout 1]
  /\ stops (trace w) = []
  /\ isScanning w = false
  /\ timers w = []
  /\ scanListener w = Some 1
  /\ timerFires 1 w = (Returned tt, w).
Proof.
  intros adapter scanning w.
  destruct startScan_starts as [T [Tm [L S]]]. fold adapter scanning in T, Tm, L, S.
  destruct (onScan_error adapter 1 {| message := "BluetoothLE is powered off" |} None scanning)
    as [T' [Tm' [L' S']]].
  fold w in T', Tm', L', S'.
  assert (timers w = []) as Hno by (rewrite Tm', Tm; reflexivity).
  split; [rewrite T', T; reflexivity|].
  split; [rewrite T', T; reflexivity|].
  split; [exact S'|]. split; [exact Hno|]. split; [now rewrite L', L|].
  apply timerFires_cancelled. now rewrite Hno.
Qed.

(** * The whole component *)

(** ** What a handler leaves alone *)

Section Respects.

Variable R : World -> World -> Prop.
Hypothesis R_refl : forall w, R w w.
Hypothesis R_trans : forall w1 w2 w3, R w1 w2 -> R w2 w3 -> R w1 w3.

Lemma respects_ret {A} (a : A) : respects R (ret a).
Proof. intros w. apply R_refl. Qed.

Lemma respects_throw {A} (e : BleError) : respects R (@throw A e).
Proof. intros w. apply R_refl. Qed.

Lemma respects_out_of_fuel {A} : respects R (@out_of_fuel A).
Proof. intros w. apply R_refl. Qed.

Lemma respects_get : respects R get.
Proof. intros w. apply R_refl. Qed.

Lemma respects_modify (f : World -> World) :
  (forall w, R w (f w)) -> respects R (modify f).
Proof. intros H w. apply H. Qed.

Lemma respects_bind {A B} (c : M A) (k : A -> M B) :
  respects R c -> (forall a, respects R (k a)) -> respects R (bind c k).
Proof.
  intros Hc Hk w. specialize (Hc w). unfold bind.
  destruct (c w) as [[a | e |] w1]; cbn [snd] in *; try exact Hc.
  eapply R_trans; [exact Hc | apply Hk].
Qed.

Lemma respects_try_catch {A} (body : M A) (handler : BleError -> M A) :
  respects R body -> (forall e, respects R (handler e)) ->
  respects R (try_catch body handler).
Proof.
  intros Hb Hh w. specialize (Hb w). unfold try_catch.
  destruct (body w) as [[a | e |] w1]; cbn [snd] in *; try exact Hb.
  eapply R_trans; [exact Hb | apply Hh].
Qed.

Lemma respects_forEach {A} (l : list A) (f : A -> M unit) :
  (forall x, respects R (f x)) -> respects R (forEach l f).
Proof.
  intros Hf. induction l as [|x l IH]; cbn [forEach].
  - apply respects_ret.
  - apply respects_bind; auto.
Qed.

End Respects.

(** Splits [respects R c] along the shape of [c]; what a [modify] does to
    the world is left to [solver]. *)
Ltac respects_logic Hrefl Htrans solver :=
  unfold alert_reconnect, addLog, emit, await, alert, setDevice, setIsConnected,
    setIsScanning, setServoState, stopDeviceScan, clearTimeout, setTimeout, on_bleManager;
  repeat first
    [ progress intros
    | apply (respects_ret _ Hrefl)
    | apply (respects_throw _ Hrefl)
    | apply (respects_out_of_fuel _ Hrefl)
    | apply (respects_get _ Hrefl)
    | apply (respects_bind _ Htrans)
    | apply (respects_try_catch _ Htrans)
    | apply (respects_forEach _ Hrefl Htrans)
    | apply respects_modify; intros; solver
    | match goal with
      | |- respects _ (match ?x with _ => _ end) => destruct x
      | |- respects _ (let _ := _ in _) => cbv zeta
      end ].

Section Frames.

Variable adapter : Adapter.

Lemma log_grows_refl (w : World) : log_grows w w.
Proof. exists []. now rewrite app_nil_r. Qed.

Lemma log_grows_trans (w1 w2 w3 : World) :
  log_grows w1 w2 -> log_grows w2 w3 -> log_grows w1 w3.
Proof.
  intros [a1 E1] [a2 E2]. exists (a1 ++ a2). now rewrite E2, E1, app_assoc.
Qed.

Lemma same_connection_refl (w : World) : same_connection w w.
Proof. unfold same_connection. tauto. Qed.

Lemma same_connection_trans (w1 w2 w3 : World) :
  same_connection w1 w2 -> same_connection w2 w3 -> same_connection w1 w3.
Proof. unfold same_connection. intuition congruence. Qed.

Lemma same_scan_refl (w : World) : same_scan w w.
Proof. unfold same_scan. tauto. Qed.

Lemma same_scan_trans (w1 w2 w3 : World) :
  same_scan w1 w2 -> same_scan w2 w3 -> same_scan w1 w3.
Proof. unfold same_scan. intuition congruence. Qed.

Lemma no_call_refl (w : World) : no_call w w.
Proof. reflexivity. Qed.

Lemma no_call_trans (w1 w2 w3 : World) : no_call w1 w2 -> no_call w2 w3 -> no_call w1 w3.
Proof. unfold no_call. congruence. Qed.

End Frames.

Ltac log_solver :=
  first [ apply log_grows_refl
        | eexists; cbn; reflexivity
        | exists []; cbn; now rewrite app_nil_r ].

Ltac grows := respects_logic log_grows_refl log_grows_trans log_solver.

Ltac field_solver := cbv [same_connection same_scan same_manager no_call]; cbn; tauto.

Ltac keeps_connection :=
  respects_logic same_connection_refl same_connection_trans field_solver.

Ltac keeps_scan := respects_logic same_scan_refl same_scan_trans field_solver.

(** ** The log is append-only *)

Section LogGrows.

Variable adapter : Adapter.

Lemma grows_requestPermissions : respects log_grows (requestPermissions adapter).
Proof. unfold requestPermissions. grows. Qed.

Lemma grows_connectLoop (fuel maxRetries : nat) (d : Device) :
  forall retryCount connectedDevice,
    respects log_grows (connectLoop adapter fuel maxRetries d retryCount connectedDevice).
Proof.
  induction fuel as [|fuel IH]; intros retryCount connectedDevice; cbn [connectLoop].
  - grows.
  - destruct (_ && _); [|grows].
    apply (respects_bind _ log_grows_trans); [|intros turn; apply IH].
    unfold connectAttempt, device_connect. grows.
Qed.

Lemma grows_connectToDevice (maxRetries : nat) (d : Device) :
  respects log_grows (connectToDevice_retrying adapter maxRetries d).
Proof.
  unfold connectToDevice_retrying.
  apply (respects_try_catch _ log_grows_trans); [|grows].
  apply (respects_bind _ log_grows_trans); [grows|]. intros _.
  apply (respects_bind _ log_grows_trans); [apply grows_connectLoop|]. intros cd.
  unfold afterConnect, verifyTopology. grows.
Qed.

Lemma grows_onScan (h : nat) (error : option BleError) (scanned : option Device) :
  respects log_grows (onScan adapter h error scanned).
Proof.
  unfold onScan. destruct error as [e|]; [grows|].
  destruct scanned as [d|]; [|grows].
  destruct (Js.truthy (hasMatchingName d)); [|grows].
  do 4 (apply (respects_bind _ log_grows_trans); [grows|]; intros _).
  apply grows_connectToDevice.
Qed.

Lemma grows_startScan_from (rendered : bool) :
  respects log_grows (startScan_from adapter rendered).
Proof.
  unfold startScan_from.
  apply (respects_bind _ log_grows_trans); [grows|]. intros w.
  destruct (negb (bleManagerRef w)); [grows|]. destruct rendered; [grows|].
  apply (respects_try_catch _ log_grows_trans); [|grows].
  apply (respects_bind _ log_grows_trans); [apply grows_requestPermissions|].
  grows.
Qed.

Lemma grows_startScan : respects log_grows (startScan adapter).
Proof.
  unfold startScan.
  apply (respects_bind _ log_grows_trans); [grows|]. intros w.
  apply grows_startScan_from.
Qed.

Lemma grows_timerFires (h : nat) : respects log_grows (timerFires h).
Proof. unfold timerFires, onScanTimeout. grows. Qed.

Lemma grows_disconnectDevice : respects log_grows (disconnectDevice adapter).
Proof. unfold disconnectDevice. grows. Qed.

Lemma grows_toggleServo : respects log_grows (toggleServo adapter).
Proof. unfold toggleServo. grows. Qed.

Lemma grows_onNotification (error : option BleError) (c : option Characteristic.t) :
  respects log_grows (onNotification error c).
Proof. unfold onNotification. grows. Qed.

Lemma grows_onDisconnected (error : option BleError) (d : option Device) :
  respects log_grows (onDisconnected error d).
Proof. unfold onDisconnected. grows. Qed.

Lemma grows_react (s : stimulus) (w : World) : respects log_grows (react adapter s w).
Proof.
  destruct s; cbn [react].
  - unfold press, render. cbn [connectButton disabled onPress].
    destruct (isScanning w); [grows|].
    destruct (isConnected w); cbn [perform];
      [apply grows_disconnectDevice | apply grows_startScan].
  - unfold press, render. cbn [servoButton disabled onPress].
    destruct (negb (isConnected w)); [grows | apply grows_toggleServo].
  - destruct (nth_error (lostAlerts w) alertIndex) as [rendered|]; [|grows].
    apply (respects_bind _ log_grows_trans); [grows|]. intros _.
    apply grows_startScan_from.
  - destruct (nth_error (lostAlerts w) alertIndex); grows.
  - apply grows_timerFires.
  - destruct (scanListener w); [apply grows_onScan | grows].
  - destruct (has_event is_subscribe w); [apply grows_onNotification | grows].
  - destruct (has_event is_onDisconnected w); [apply grows_onDisconnected | grows].
Qed.

End LogGrows.

Lemma same_manager_refl (w : World) : same_manager w w.
Proof. reflexivity. Qed.

Lemma same_manager_trans (w1 w2 w3 : World) :
  same_manager w1 w2 -> same_manager w2 w3 -> same_manager w1 w3.
Proof. unfold same_manager. congruence. Qed.

Ltac keeps_manager := respects_logic same_manager_refl same_manager_trans field_solver.

(** ** What each handler leaves alone *)

Section HandlerFrames.

Variable adapter : Adapter.

Lemma connectLoop_respects (R : World -> World -> Prop)
    (R_refl : forall w, R w w) (R_trans : forall w1 w2 w3, R w1 w2 -> R w2 w3 -> R w1 w3)
    (maxRetries : nat) (d : Device) :
  (forall retryCount connectedDevice,
     respects R (connectAttempt adapter maxRetries d retryCount connectedDevice)) ->
  forall fuel retryCount connectedDevice,
    respects R (connectLoop adapter fuel maxRetries d retryCount connectedDevice).
Proof.
  intros Hturn. induction fuel as [|fuel IH]; intros retryCount connectedDevice;
    cbn [connectLoop]; destruct (_ && _);
    try apply (respects_ret _ R_refl); try apply (respects_out_of_fuel _ R_refl).
  apply (respects_bind _ R_trans); [apply Hturn | intros turn; apply IH].
Qed.

Lemma connectToDevice_keeps_scan (maxRetries : nat) (d : Device) :
  respects same_scan (connectToDevice_retrying adapter maxRetries d).
Proof.
  unfold connectToDevice_retrying.
  apply (respects_try_catch _ same_scan_trans); [|keeps_scan].
  apply (respects_bind _ same_scan_trans); [keeps_scan|]. intros _.
  apply (respects_bind _ same_scan_trans).
  - apply (connectLoop_respects _ same_scan_refl same_scan_trans).
    intros. unfold connectAttempt, device_connect. keeps_scan.
  - intros cd. unfold afterConnect, verifyTopology. keeps_scan.
Qed.

Lemma toggleServo_keeps_scan : respects same_scan (toggleServo adapter).
Proof. unfold toggleServo. keeps_scan. Qed.

Lemma disconnectDevice_keeps_scan : respects same_scan (disconnectDevice adapter).
Proof. unfold disconnectDevice. keeps_scan. Qed.

Lemma onNotification_keeps_scan (error : option BleError) (c : option Characteristic.t) :
  respects same_scan (onNotification error c).
Proof. unfold onNotification. keeps_scan. Qed.

Lemma onDisconnected_keeps_scan (error : option BleError) (d : option Device) :
  respects same_scan (onDisconnected error d).
Proof. unfold onDisconnected. keeps_scan. Qed.

Lemma requestPermissions_keeps_connection :
  respects same_connection (requestPermissions adapter).
Proof. unfold requestPermissions. keeps_connection. Qed.

Lemma startScan_from_keeps_connection (rendered : bool) :
  respects same_connection (startScan_from adapter rendered).
Proof.
  unfold startScan_from.
  apply (respects_bind _ same_connection_trans); [keeps_connection|]. intros w.
  destruct (negb (bleManagerRef w)); [keeps_connection|].
  destruct rendered; [keeps_connection|].
  apply (respects_try_catch _ same_connection_trans); [|keeps_connection].
  apply (respects_bind _ same_connection_trans);
    [apply requestPermissions_keeps_connection|].
  keeps_connection.
Qed.

Lemma startScan_keeps_connection : respects same_connection (startScan adapter).
Proof.
  unfold startScan.
  apply (respects_bind _ same_connection_trans); [keeps_connection|]. intros w.
  apply startScan_from_keeps_connection.
Qed.

Lemma timerFires_keeps_connection (h : nat) : respects same_connection (timerFires h).
Proof. unfold timerFires, onScanTimeout. keeps_connection. Qed.

Lemma onNotification_keeps_connection (error : option BleError)
    (c : option Characteristic.t) :
  respects same_connection (onNotification error c).
Proof. unfold onNotification. keeps_connection. Qed.

End HandlerFrames.

(** ** Permissions (lines 101-136) *)

Section Permissions.

Variable adapter : Adapter.

(** [requestPermissions] never throws: it returns whether the platform
    granted, after at most the one dialog. *)
Lemma requestPermissions_outcome (w : World) :
  exists w',
    requestPermissions adapter w = (Returned (permissions_granted adapter), w')
    /\ same_session w w'
    /\ trace w' = trace w ++ permission_calls adapter.
Proof.
  unfold requestPermissions, permissions_granted, permission_calls.
  destruct (Platform adapter) as [version| |]; step.
  - destruct (requestMultiple adapter) as [granted|e]; step.
    + destruct (forallb _ granted); step;
        (eexists; split; [reflexivity|]; split;
         [unfold same_session; cbn; tauto | reflexivity]).
    + eexists. split; [reflexivity|]. split;
        [unfold same_session; cbn; tauto | reflexivity].
  - eexists. split; [reflexivity|]. split;
      [unfold same_session; cbn; tauto | now rewrite app_nil_r].
  - eexists. split; [reflexivity|]. split;
      [unfold same_session; cbn; tauto | now rewrite app_nil_r].
Qed.

End Permissions.

(** ** Connecting is all or nothing (lines 221-332) *)

Section AllOrNothing.

Variable adapter : Adapter.

Lemma subscribes_app (t1 t2 : list event) :
  subscribes (t1 ++ t2) = subscribes t1 ++ subscribes t2.
Proof. apply filter_app. Qed.

Lemma emits_not_subscribe_subscribes {A} (c : M A) (w : World) :
  emits not_subscribe c -> subscribes (trace (snd (c w))) = subscribes (trace w).
Proof.
  intros H. destruct (H w) as [rest [E F]]. rewrite E, subscribes_app.
  enough (subscribes rest = []) as -> by now rewrite app_nil_r.
  clear E. induction rest as [|e rest IH]; [reflexivity|].
  cbn in F. apply andb_true_iff in F as [Fe Fr]. unfold subscribes. cbn.
  unfold not_subscribe in Fe. apply negb_true_iff in Fe. rewrite Fe. now apply IH.
Qed.

Lemma emits_not_subscribe_verifyTopology : emits not_subscribe (verifyTopology adapter).
Proof. unfold verifyTopology. trace_logic. Qed.

Lemma emits_not_subscribe_connectLoop (fuel maxRetries : nat) (d : Device) :
  forall retryCount connectedDevice,
    emits not_subscribe (connectLoop adapter fuel maxRetries d retryCount connectedDevice).
Proof.
  induction fuel as [|fuel IH]; intros retryCount connectedDevice; cbn [connectLoop].
  - destruct (_ && _); trace_logic.
  - destruct (_ && _); [|trace_logic].
    apply emits_bind; [|intros turn; apply IH].
    unfold connectAttempt, device_connect. trace_logic.
Qed.

Lemma verifyTopology_same_session (w : World) :
  same_session w (snd (verifyTopology adapter w)).
Proof.
  revert w. change (respects same_session (verifyTopology adapter)).
  unfold verifyTopology.
  respects_logic same_session_refl same_session_trans
                 ltac:(unfold same_session; cbn; tauto).
Qed.

Lemma verifyTopology_halts (w : World) : fst (verifyTopology adapter w) <> OutOfFuel.
Proof.
  revert w. change (halts (verifyTopology adapter)). unfold verifyTopology. halts_logic.
Qed.

(** How the part after the loop ends: with the device stored, the flag set
    and the two listeners given to the adapter last, or with an error and
    no listener given. *)
Lemma afterConnect_outcome (connectedDevice : option Device) (w : World) :
  match afterConnect adapter connectedDevice w with
  | (Returned _, w') =>
      isConnected w' = true
      /\ (exists discovered,
            discoverAllServicesAndCharacteristics adapter = Resolves discovered
            /\ device w' = Some discovered)
      /\ (exists before, trace w' = before ++ [subscribe; OnDisconnected])
      /\ subscribes (trace w') = subscribes (trace w) ++ [subscribe]
      /\ servoState w' = servoState w
  | (Thrown _, w') =>
      same_session w w' /\ subscribes (trace w') = subscribes (trace w)
  | (OutOfFuel, _) => False
  end.
Proof.
  unfold afterConnect. step. destruct connectedDevice as [cd|]; step.
  2:{ split; [unfold same_session; cbn; tauto | reflexivity]. }
  destruct (discoverAllServicesAndCharacteristics adapter) as [discovered|e]; step.
  2:{ split; [unfold same_session; cbn; tauto|].
      rewrite subscribes_app. cbn. now rewrite app_nil_r. }
  match goal with
  | |- context [verifyTopology adapter ?w0] =>
      pose proof (emits_not_subscribe_subscribes _ w0 emits_not_subscribe_verifyTopology)
        as Hs;
      pose proof (verifyTopology_same_session w0) as Hf;
      pose proof (verifyTopology_halts w0) as Hh;
      destruct (verifyTopology adapter w0) as [[[] | e |] w1]
  end; step; cbn [snd fst] in *.
  - split; [reflexivity|]. split; [now exists discovered|]. split; [|split].
    + eexists. rewrite <- app_assoc. reflexivity.
    + rewrite !subscribes_app, Hs, subscribes_app.
      change (subscribes [DiscoverAllServicesAndCharacteristics]) with (@nil event).
      change (subscribes [OnDisconnected]) with (@nil event).
      now rewrite !app_nil_r.
    + unfold same_session in Hf. cbn in Hf. tauto.
  - split.
    + unfold same_session in *. cbn in Hf. exact Hf.
    + rewrite Hs, subscribes_app.
      change (subscribes [DiscoverAllServicesAndCharacteristics]) with (@nil event).
      now rewrite app_nil_r.
  - congruence.
Qed.

End AllOrNothing.

Section ConnectOutcome.

Variable adapter : Adapter.

Lemma connectLoop_same_session (fuel maxRetries : nat) (d : Device)
    (retryCount : nat) (connectedDevice : option Device) (w : World) :
  same_session w (snd (connectLoop adapter fuel maxRetries d retryCount connectedDevice w)).
Proof.
  revert w.
  apply (connectLoop_respects adapter _ same_session_refl same_session_trans).
  intros. unfold connectAttempt, device_connect.
  respects_logic same_session_refl same_session_trans
                 ltac:(unfold same_session; cbn; tauto).
Qed.

(** How [connectToDevice] leaves the session: connected and subscribed, or
    disconnected with the error logged. *)
Lemma connectToDevice_outcome (maxRetries : nat) (d : Device) (w : World) :
  let w' := run (connectToDevice_retrying adapter maxRetries d) w in
  servoState w' = servoState w
  /\ ((isConnected w' = true
       /\ (exists discovered, device w' = Some discovered)
       /\ (exists before, trace w' = before ++ [subscribe; OnDisconnected])
       /\ subscribes (trace w') = subscribes (trace w) ++ [subscribe])
      \/ (isConnected w' = false
          /\ device w' = None
          /\ subscribes (trace w') = subscribes (trace w)
          /\ exists before e,
               logs w' = before ++ [("Connection error: " ++ message e)%string])).
Proof.
  intros w'. subst w'. unfold run.
  pose proof (connectToDevice_ends adapter maxRetries d w) as H.
  pose proof (connectLoop_same_session (maxRetries + 2) maxRetries d 0 None (connecting d w))
    as Hf.
  pose proof (emits_not_subscribe_subscribes
                _ (connecting d w)
                (emits_not_subscribe_connectLoop adapter (maxRetries + 2) maxRetries d 0 None))
    as Hs.
  change (trace (connecting d w)) with (trace w) in Hs.
  assert (servoState (connecting d w) = servoState w) as Hservo by reflexivity.
  destruct (connectLoop _ _ _ _ _ _ _) as [[cd | e |] w1]; [| |contradiction];
    cbn [snd] in Hf, Hs.
  - pose proof (afterConnect_outcome adapter cd w1) as Ha.
    destruct (afterConnect _ _ _) as [[[] | e |] w2]; [| |contradiction]; rewrite H;
      cbn [snd].
    + destruct Ha as [Hc [[discovered [_ Hd]] [Ht [Hsub Hsv]]]]. split.
      * unfold same_session in Hf. rewrite Hsv. cbn in Hf. tauto.
      * left. rewrite Hsub, Hs. eauto.
    + destruct Ha as [Hf2 Hsub]. split.
      * unfold connection_failed, same_session in *. cbn. intuition congruence.
      * right. unfold connection_failed.
        cbn [trace with_device with_isConnected with_logs device isConnected logs].
        rewrite Hsub, Hs.
        repeat split. now exists (logs w2), e.
  - rewrite H. cbn [snd]. split.
    + unfold connection_failed, same_session in *. cbn. intuition congruence.
    + right. unfold connection_failed.
      cbn [trace with_device with_isConnected with_logs device isConnected logs].
      rewrite Hs.
      repeat split. now exists (logs w1), e.
Qed.

End ConnectOutcome.

(** ** The topology check does not gate the subscription (lines 261-317
    and 362-379) *)

(** C1, as the code has it. When discovery lacks the expected service or
    the expected characteristic, [toggleServo] issues no write: it logs
    "ERROR: Service not available" when the service is missing and
    "ERROR: Characteristic not available" when only the characteristic
    is, and returns, with the device, the connected flag and the servo
    state as they were.  The subscription is not gated by the check: once
    the connection succeeds, at the first attempt or after retries, and
    the discovery succeeds, [connectToDevice] logs the WARNING that names
    what is missing, stores the device, sets the connected flag and calls
    monitorCharacteristicForService all the same. *)
Theorem missing_topology_blocks_write_not_subscribe (adapter : Adapter) :
  topology_missing adapter ->
  (forall w,
     writes (trace (run (toggleServo adapter) w)) = writes (trace w)
     /\ servoState (run (toggleServo adapter) w) = servoState w
     /\ result (toggleServo adapter) w = Returned tt)
  /\ (forall w d,
        device w = Some d -> isConnected w = true ->
        logs (run (toggleServo adapter) w)
        = logs w ++ [("Sending command: "
                       ++ JsString.trim (command_of (negb (servoState w))))%string;
                     missing_error adapter]
        /\ trace (run (toggleServo adapter) w)
           = trace w ++ Services :: (if service_found adapter
                                     then [CharacteristicsForService SERVICE_UUID]
                                     else [])
        /\ device (run (toggleServo adapter) w) = device w
        /\ isConnected (run (toggleServo adapter) w) = isConnected w)
  /\ (forall w d k dev discovered,
        k <= maxRetries ->
        (forall i, i < k ->
                   exists e, connect adapter (attempts (trace w) + i) = Rejects e) ->
        connect adapter (attempts (trace w) + k) = Resolves dev ->
        discoverAllServicesAndCharacteristics adapter = Resolves discovered ->
        exists before added,
          trace (run (connectToDevice adapter d) w) = before ++ [subscribe; OnDisconnected]
          /\ subscribes (trace (run (connectToDevice adapter d) w))
             = subscribes (trace w) ++ [subscribe]
          /\ device (run (connectToDevice adapter d) w) = Some discovered
          /\ isConnected (run (connectToDevice adapter d) w) = true
          /\ logs (run (connectToDevice adapter d) w) = logs w ++ added
          /\ In (missing_warning adapter) added).
Proof.
  intros Hm. split; [|split].
  - intros w.
    destruct (toggleServo_unverified adapter w) as [Hw Hs].
    { intros c. now apply missing_not_verified. }
    split; [exact Hw|]. split; [exact Hs|]. apply toggleServo_returns.
  - intros w d Hd Hc. now apply (toggleServo_missing adapter w d).
  - intros w d k dev discovered Hk Hfail Hcon Hdis.
    pose proof (connectToDevice_ends adapter maxRetries d w) as H.
    destruct (connectLoop_succeeds adapter maxRetries d dev k (maxRetries + 2) 0
                                   (connecting d w) ltac:(lia) ltac:(lia))
      as [w1 [E _]]; [exact Hfail | exact Hcon |].
    pose proof (grows_connectLoop adapter (maxRetries + 2) maxRetries d 0 None
                                  (connecting d w)) as [grown G].
    rewrite E in H, G. cbn [snd] in G.
    destruct (afterConnect_subscribes adapter dev discovered w1 Hdis Hm)
      as [w2 [before [added [EA [T [D [C [L Hin]]]]]]]].
    rewrite EA in H.
    destruct (connectToDevice_outcome adapter maxRetries d w)
      as [_ [[_ [_ [_ Hsub]]] | [Hno _]]];
      unfold run, connectToDevice in *; rewrite H in *; cbn [snd] in *;
      [|congruence].
    exists before. eexists.
    split; [exact T|]. split; [exact Hsub|]. split; [exact D|]. split; [exact C|].
    split.
    + rewrite L, G. cbn [connecting logs with_logs]. rewrite <- !app_assoc. reflexivity.
    + rewrite !in_app_iff. cbn [In]. tauto.
Qed.

(** A peripheral whose service lacks the characteristic: a command is
    refused without a write, and the characteristic is what the log
    names. *)
Lemma missing_characteristic_blocks_write :
  logs (run (toggleServo (peripheral (flaky 0) [ffe0] [] (Resolves tt)))
            (connected false))
  = logs (connected false)
      ++ [("Sending command: "
             ++ JsString.trim (command_of (negb (servoState (connected false)))))%string;
          "ERROR: Characteristic not available"%string]
  /\ trace (run (toggleServo (peripheral (flaky 0) [ffe0] [] (Resolves tt)))
                (connected false))
     = [Services; CharacteristicsForService SERVICE_UUID].
Proof.
  destruct (proj1 (proj2 (missing_topology_blocks_write_not_subscribe
                            (peripheral (flaky 0) [ffe0] [] (Resolves tt))
                            (ex_intro _ [ffe0]
                               (conj eq_refl
                                  (or_intror (ex_intro _ [] (conj eq_refl eq_refl)))))))
              (connected false) bt05 eq_refl eq_refl) as [L [T _]].
  split; [exact L | exact T].
Defined.

(** C1, as the claim states it, fails: with the characteristic absent from
    discovery, the subscribe call is made all the same. *)
Lemma subscribe_attempted_on_missing_characteristic :
  topology_missing (peripheral (flaky 0) [ffe0] [] (Resolves tt))
  /\ trace (run (connectToDevice (peripheral (flaky 0) [ffe0] [] (Resolves tt)) bt05)
                initial)
     = [Connect (id bt05); DiscoverAllServicesAndCharacteristics; Services;
        CharacteristicsForService SERVICE_UUID;
        MonitorCharacteristicForService SERVICE_UUID CHARACTERISTIC_UUID;
        OnDisconnected]
  /\ isConnected (run (connectToDevice (peripheral (flaky 0) [ffe0] [] (Resolves tt)) bt05)
                      initial)
     = true.
Proof.
  split; [|split; reflexivity].
  exists [ffe0]. split; [reflexivity|]. right. exists []. split; reflexivity.
Qed.


(** ** Starting a scan (lines 139-218) *)

Section StartScan.

Variable adapter : Adapter.

(** The [startScan] of the latest render closes over the scanning flag as
    it is. *)
Lemma startScan_latest (w : World) :
  startScan adapter w = startScan_from adapter (isScanning w) w.
Proof. reflexivity. Qed.

(** Without a manager, or created by a render in which a scan was on,
    [startScan] says so in the log and does nothing else. *)
Lemma startScan_from_guarded (rendered : bool) (w : World) :
  bleManagerRef w = false \/ rendered = true ->
  startScan_from adapter rendered w
  = (Returned tt,
     with_logs (logs w ++ [if bleManagerRef w then "Already scanning..."%string
                           else "BLE Manager not initialized"%string]) w).
Proof.
  intros H. unfold startScan_from. step.
  destruct (bleManagerRef w); [|reflexivity].
  destruct H as [H|H]; [discriminate|]. now rewrite H.
Qed.

Lemma startScan_guarded (w : World) :
  bleManagerRef w = false \/ isScanning w = true ->
  startScan adapter w
  = (Returned tt,
     with_logs (logs w ++ [if bleManagerRef w then "Already scanning..."%string
                           else "BLE Manager not initialized"%string]) w).
Proof. intros H. rewrite startScan_latest. now apply startScan_from_guarded. Qed.

(** Every way [startScan] can go once its guards are passed, by what the
    platform, the radio and the adapter answer; the scanning flag at the
    moment of the call plays no part. *)
Lemma startScan_from_outcome (w : World) :
  bleManagerRef w = true ->
  let w' := run (startScan_from adapter false) w in
  let scanTimeoutId := S (list_max (timers w)) in
  result (startScan_from adapter false) w = Returned tt
  /\ same_connection w w'
  /\ bleManagerRef w' = true
  /\ if permissions_granted adapter
     then
       match state adapter with
       | Resolves radio =>
           if String.eqb radio "PoweredOn"
           then
             trace w' = trace w ++ permission_calls adapter
                                ++ [GetState; SetTimeout scanTimeoutId 15000; StartDeviceScan]
             /\ timers w' = scanTimeoutId :: timers w
             /\ match startDeviceScan adapter with
                | Resolves _ => isScanning w' = true /\ scanListener w' = Some scanTimeoutId
                | Rejects _ => isScanning w' = false /\ scanListener w' = scanListener w
                end
           else
             trace w' = trace w ++ permission_calls adapter
                                ++ [GetState; AlertAlert "Bluetooth not enabled"]
             /\ same_scan w w'
       | Rejects _ =>
           trace w' = trace w ++ permission_calls adapter ++ [GetState]
           /\ isScanning w' = false /\ timers w' = timers w
           /\ scanListener w' = scanListener w
       end
     else trace w' = trace w ++ permission_calls adapter /\ same_scan w w'.
Proof.
  intros Hm w' scanTimeoutId. subst w' scanTimeoutId.
  destruct (requestPermissions_outcome adapter w) as [w1 [E [S1 T1]]].
  unfold startScan_from. step. rewrite Hm. step. rewrite E.
  assert (same_connection w w1 /\ same_scan w w1) as [C1 F1].
  { unfold same_session, same_connection, same_scan in *. tauto. }
  assert (timers w1 = timers w) as Ht by (unfold same_scan in F1; tauto).
  assert (bleManagerRef w1 = true) as Hm1 by (unfold same_scan in F1; intuition congruence).
  destruct (permissions_granted adapter); step.
  2:{ repeat split; try (unfold same_connection, same_scan in *; cbn; intuition congruence). }
  destruct (state adapter) as [radio|e]; step.
  2:{ repeat split; try (unfold same_connection, same_scan in *; cbn; intuition congruence).
      now rewrite T1, <- app_assoc. }
  destruct (String.eqb radio "PoweredOn"); step.
  2:{ repeat split; try (unfold same_connection, same_scan in *; cbn; intuition congruence).
      now rewrite T1, <- !app_assoc. }
  unfold setTimeout. step.
  destruct (startDeviceScan adapter) as [[]|e]; step; rewrite Ht;
    repeat split; try (unfold same_connection, same_scan in *; cbn; intuition congruence);
    now rewrite T1, <- !app_assoc.
Qed.

Lemma startScan_outcome (w : World) :
  bleManagerRef w = true -> isScanning w = false ->
  let w' := run (startScan adapter) w in
  let scanTimeoutId := S (list_max (timers w)) in
  result (startScan adapter) w = Returned tt
  /\ same_connection w w'
  /\ bleManagerRef w' = true
  /\ if permissions_granted adapter
     then
       match state adapter with
       | Resolves radio =>
           if String.eqb radio "PoweredOn"
           then
             trace w' = trace w ++ permission_calls adapter
                                ++ [GetState; SetTimeout scanTimeoutId 15000; StartDeviceScan]
             /\ timers w' = scanTimeoutId :: timers w
             /\ match startDeviceScan adapter with
                | Resolves _ => isScanning w' = true /\ scanListener w' = Some scanTimeoutId
                | Rejects _ => isScanning w' = false /\ scanListener w' = scanListener w
                end
           else
             trace w' = trace w ++ permission_calls adapter
                                ++ [GetState; AlertAlert "Bluetooth not enabled"]
             /\ same_scan w w'
       | Rejects _ =>
           trace w' = trace w ++ permission_calls adapter ++ [GetState]
           /\ same_scan w w'
       end
     else trace w' = trace w ++ permission_calls adapter /\ same_scan w w'.
Proof.
  intros Hm Hs w' scanTimeoutId. subst w' scanTimeoutId.
  unfold run, result. rewrite startScan_latest, Hs.
  pose proof (startScan_from_outcome w Hm) as [Hr [Hc [Hm' H]]]. cbv zeta in H.
  unfold run, result in *.
  split; [exact Hr|]. split; [exact Hc|]. split; [exact Hm'|].
  destruct (permissions_granted adapter); [|exact H].
  destruct (state adapter) as [radio|e]; [exact H|].
  destruct H as [T [Hi [Ht Hl]]]. split; [exact T|].
  unfold same_scan. rewrite Hi, Ht, Hl, Hs, Hm', Hm. tauto.
Qed.

End StartScan.

(** ** What holds in every world the component can reach *)

Section Invariants.

Variable adapter : Adapter.

Lemma same_connection_consistent (w w' : World) :
  same_connection w w' -> connection_consistent w -> connection_consistent w'.
Proof.
  unfold same_connection, connection_consistent. intros [-> [-> _]]. auto.
Qed.

Lemma same_scan_bounded (w w' : World) :
  same_scan w w' -> scan_bounded w -> scan_bounded w'.
Proof.
  unfold same_scan, scan_bounded. intros [-> [-> [-> ->]]]. auto.
Qed.

Lemma toggleServo_consistent (w : World) :
  connection_consistent w -> connection_consistent (run (toggleServo adapter) w).
Proof.
  unfold connection_consistent, toggleServo. intros H. step.
  destruct (device w) as [d|] eqn:Hd; destruct (isConnected w) eqn:Hc; step;
    try (now rewrite ?Hd, ?Hc).
  destruct (services adapter) as [svcs|es]; step.
  2:{ destruct (_ || _); step; now rewrite ?Hd, ?Hc. }
  destruct (find is_target_service svcs); step; [|now rewrite ?Hd, ?Hc].
  destruct (characteristicsForService adapter) as [chars|ec]; step.
  2:{ destruct (_ || _); step; now rewrite ?Hd, ?Hc. }
  destruct (find is_target_characteristic chars) as [c|]; step; [|now rewrite ?Hd, ?Hc].
  destruct (Characteristic.isWritableWithResponse c); step.
  - destruct (writeCharacteristicWithResponseForService adapter) as [[]|ew]; step;
      [now rewrite ?Hd, ?Hc|].
    destruct (_ || _); step; now rewrite ?Hd, ?Hc.
  - destruct (writeCharacteristicWithoutResponseForService adapter) as [[]|ew]; step;
      [now rewrite ?Hd, ?Hc|].
    destruct (_ || _); step; now rewrite ?Hd, ?Hc.
Qed.

Lemma disconnectDevice_consistent (w : World) :
  connection_consistent w -> connection_consistent (run (disconnectDevice adapter) w).
Proof.
  unfold connection_consistent, disconnectDevice. intros H. step.
  destruct (device w) as [d|] eqn:Hd; step; [|now rewrite Hd].
  destruct (cancelConnection adapter) as [[]|e]; step; [now rewrite Hd | reflexivity].
Qed.

Lemma connectToDevice_consistent (maxRetries : nat) (d : Device) (w : World) :
  connection_consistent (run (connectToDevice_retrying adapter maxRetries d) w).
Proof.
  destruct (connectToDevice_outcome adapter maxRetries d w)
    as [_ [[Hc [[dd Hd] _]] | [Hc [Hd _]]]];
    unfold connection_consistent; now rewrite Hc, Hd.
Qed.

Lemma onScan_consistent (h : nat) (error : option BleError) (scanned : option Device)
    (w : World) :
  connection_consistent w -> connection_consistent (run (onScan adapter h error scanned) w).
Proof.
  intros H. unfold onScan. destruct error as [e|]; [step; exact H|].
  destruct scanned as [d|]; [|exact H].
  destruct (Js.truthy (hasMatchingName d)); [|exact H].
  step. destruct (bleManagerRef w); step; [|exact H].
  apply connectToDevice_consistent.
Qed.

Lemma react_consistent (s : stimulus) (w : World) :
  connection_consistent w -> connection_consistent (run (react adapter s w) w).
Proof.
  intros H. destruct s; cbn [react].
  - unfold press, render. cbn [connectButton disabled onPress].
    destruct (isScanning w); [exact H|].
    destruct (isConnected w); cbn [perform].
    + now apply disconnectDevice_consistent.
    + eapply same_connection_consistent; [apply startScan_keeps_connection | exact H].
  - unfold press, render. cbn [servoButton disabled onPress].
    destruct (negb (isConnected w)); [exact H | now apply toggleServo_consistent].
  - destruct (nth_error (lostAlerts w) alertIndex) as [rendered|]; [|exact H].
    step.
    eapply same_connection_consistent;
      [apply (startScan_from_keeps_connection adapter rendered) | exact H].
  - destruct (nth_error (lostAlerts w) alertIndex); exact H.
  - eapply same_connection_consistent; [apply timerFires_keeps_connection | exact H].
  - destruct (scanListener w); [now apply onScan_consistent | exact H].
  - destruct (has_event is_subscribe w); [|exact H].
    eapply same_connection_consistent; [apply onNotification_keeps_connection | exact H].
  - destruct (has_event is_onDisconnected w); [|exact H].
    unfold onDisconnected. step. reflexivity.
Qed.

Lemma startScan_from_bounded (rendered : bool) (w : World) :
  scan_bounded w -> scan_bounded (run (startScan_from adapter rendered) w).
Proof.
  intros [Hm Hb]. destruct rendered.
  - unfold run. rewrite startScan_from_guarded by now right. cbn [snd].
    split; [exact Hm|]. cbn. intros Hs. now apply Hb.
  - pose proof (startScan_from_outcome adapter w Hm) as [_ [_ [Hm' H]]]. cbv zeta in H.
    split; [exact Hm'|].
    destruct (permissions_granted adapter).
    2:{ destruct H as [_ [Fi [Ft [Fl _]]]]. rewrite Fi, Ft, Fl. exact Hb. }
    destruct (state adapter) as [radio|e].
    2:{ destruct H as [_ [Fi _]]. rewrite Fi. discriminate. }
    destruct (String.eqb radio "PoweredOn").
    2:{ destruct H as [_ [Fi [Ft [Fl _]]]]. rewrite Fi, Ft, Fl. exact Hb. }
    destruct H as [_ [Ht H]].
    destruct (startDeviceScan adapter) as [[]|e]; destruct H as [Hi Hl].
    + intros _. eexists. split; [exact Hl|]. rewrite Ht. now left.
    + rewrite Hi. discriminate.
Qed.

Lemma startScan_bounded (w : World) :
  scan_bounded w -> scan_bounded (run (startScan adapter) w).
Proof. intros H. unfold run. rewrite startScan_latest. now apply startScan_from_bounded. Qed.

Lemma timerFires_bounded (h : nat) (w : World) :
  scan_bounded w -> scan_bounded (run (timerFires h) w).
Proof.
  intros [Hm Hb]. unfold timerFires, onScanTimeout. step.
  destruct (existsb (Nat.eqb h) (timers w)); step; [|now split].
  rewrite Hm. step. split; [exact Hm | discriminate].
Qed.

Lemma onScan_bounded (h : nat) (error : option BleError) (scanned : option Device)
    (w : World) :
  scan_bounded w -> scan_bounded (run (onScan adapter h error scanned) w).
Proof.
  intros [Hm Hb]. unfold onScan.
  destruct error as [e|]; [step; split; [exact Hm | discriminate]|].
  destruct scanned as [d|]; [|now split].
  destruct (Js.truthy (hasMatchingName d)); [|now split].
  step. rewrite Hm. step.
  match goal with
  | |- context [connectToDevice adapter d ?w0] =>
      pose proof (connectToDevice_keeps_scan adapter maxRetries d w0) as F
  end.
  unfold connectToDevice. unfold same_scan in F. step.
  destruct F as [Fi [_ [_ Fm]]].
  split; [now rewrite Fm|]. rewrite Fi. discriminate.
Qed.

Lemma react_bounded (s : stimulus) (w : World) :
  scan_bounded w -> scan_bounded (run (react adapter s w) w).
Proof.
  intros H. destruct s; cbn [react].
  - unfold press, render. cbn [connectButton disabled onPress].
    destruct (isScanning w); [exact H|].
    destruct (isConnected w); cbn [perform].
    + eapply same_scan_bounded; [apply disconnectDevice_keeps_scan | exact H].
    + now apply startScan_bounded.
  - unfold press, render. cbn [servoButton disabled onPress].
    destruct (negb (isConnected w)); [exact H|].
    eapply same_scan_bounded; [apply toggleServo_keeps_scan | exact H].
  - destruct (nth_error (lostAlerts w) alertIndex) as [rendered|]; [|exact H].
    step. apply (startScan_from_bounded rendered (close_alert alertIndex w)). exact H.
  - destruct (nth_error (lostAlerts w) alertIndex); exact H.
  - now apply timerFires_bounded.
  - destruct (scanListener w); [now apply onScan_bounded | exact H].
  - destruct (has_event is_subscribe w); [|exact H].
    eapply same_scan_bounded; [apply onNotification_keeps_scan | exact H].
  - destruct (has_event is_onDisconnected w); [|exact H].
    eapply same_scan_bounded; [apply onDisconnected_keeps_scan | exact H].
Qed.

End Invariants.

(** The tasks of the mount effect write to the log and open the
    permission dialog; they touch nothing else. *)
Lemma mount_task_same_session (adapter : Adapter) (manager : nat) (task : M unit)
    (w : World) :
  In task (tasks_of (result (initialize adapter true (Some manager)) unmounted)) ->
  same_session w (run task w)
  /\ log_grows w (run task w)
  /\ (trace (run task w) = trace w
      \/ exists permissions, trace (run task w) = trace w ++ [RequestMultiple permissions]).
Proof.
  intros [<- | [<- | []]].
  - unfold onInitialState. destruct (state adapter) as [radio|e]; step.
    + destruct (negb _); step;
        (split; [unfold same_session; cbn; tauto|]);
        (split; [eexists; cbn; rewrite <- ?app_assoc; reflexivity | left; reflexivity]).
    + split; [unfold same_session; tauto|].
      split; [apply log_grows_refl | left; reflexivity].
  - destruct (requestPermissions_outcome adapter w) as [w' [E [S T]]].
    pose proof (grows_requestPermissions adapter w) as G.
    unfold run, bind, ret in *. rewrite E in *. cbn [fst snd] in *.
    split; [exact S|]. split; [exact G|].
    rewrite T. unfold permission_calls.
    destruct (Platform adapter); [right; eauto | left..]; now rewrite app_nil_r.
Qed.

Lemma reachable_invariants (w : World) :
  reachable w -> connection_consistent w /\ scan_bounded w.
Proof.
  induction 1 as [|adapter manager|adapter manager task w Hr [Hc Hb] Ht|adapter s w Hr [Hc Hb]].
  - split; [reflexivity|]. split; [reflexivity | discriminate].
  - split; [reflexivity|]. split; [reflexivity | discriminate].
  - pose proof (mount_task_same_session adapter manager task w Ht) as S.
    split.
    + apply (same_connection_consistent w); [|exact Hc].
      unfold same_session, same_connection in *. tauto.
    + apply (same_scan_bounded w); [|exact Hb].
      unfold same_session, same_scan in *. tauto.
  - split; [now apply react_consistent | now apply react_bounded].
Qed.

(** ** Properties of the whole component *)

Lemma last_call_app (w : World) (t : list event) (e : event) :
  trace w = t ++ [e] -> last_call w = Some e.
Proof.
  intros E. unfold last_call. rewrite E, map_app. cbn [map]. apply last_last.
Qed.

Lemma last_log_app (w : World) (l : list string) (m : string) :
  logs w = l ++ [m] -> last_log w = Some m.
Proof.
  intros E. unfold last_log. rewrite E, map_app. cbn [map]. apply last_last.
Qed.


(** X1. [connectToDevice] is all or nothing, whatever the adapter answers
    and however many retries are allowed.  Either it ends connected: the
    flag is set, the discovered device is stored, and the notification
    and disconnect listeners are the last two calls, one subscription
    more than before.  Or it ends disconnected: the flag is false, no
    device is stored, no subscription was made, and the last line of the
    log is the connection error.  The servo state and the scan (its
    flag, its listener, the pending timeouts) are untouched either
    way. *)
Theorem connect_all_or_nothing (adapter : Adapter) (maxRetries : nat) (d : Device)
    (w : World) :
  let w' := run (connectToDevice_retrying adapter maxRetries d) w in
  servoState w' = servoState w
  /\ same_scan w w'
  /\ ((isConnected w' = true
       /\ (exists discovered, device w' = Some discovered)
       /\ (exists before, trace w' = before ++ [subscribe; OnDisconnected])
       /\ subscribes (trace w') = subscribes (trace w) ++ [subscribe])
      \/ (isConnected w' = false
          /\ device w' = None
          /\ subscribes (trace w') = subscribes (trace w)
          /\ exists before e,
               logs w' = before ++ [("Connection error: " ++ message e)%string])).
Proof.
  intros w'. subst w'.
  destruct (connectToDevice_outcome adapter maxRetries d w) as [Hservo H].
  split; [exact Hservo|]. split; [|exact H].
  apply connectToDevice_keeps_scan.
Qed.



(** X3. The component cannot stay locked in "Scanning...": in every
    reachable world where the scanning flag is set, the adapter holds the
    scan listener and the timeout that listener closes over is pending;
    when it elapses the scan is stopped, the listener dropped, the flag
    cleared and the connect button enabled again. *)
Theorem scanning_always_ends (w : World) :
  reachable w -> isScanning w = true ->
  exists scanTimeoutId,
    scanListener w = Some scanTimeoutId
    /\ In scanTimeoutId (timers w)
    /\ let w' := run (timerFires scanTimeoutId) w in
       last_call w' = Some StopDeviceScan
       /\ scanListener w' = None
       /\ isScanning w' = false
       /\ disabled (connectButton (render w')) = false
       /\ last_log w' = Some "Scan timed out. Device not found."%string.
Proof.
  intros Hr Hs. destruct (reachable_invariants w Hr) as [_ [Hm Hb]].
  destruct (Hb Hs) as [h [Hl Hin]]. exists h. split; [exact Hl|]. split; [exact Hin|].
  assert (existsb (Nat.eqb h) (timers w) = true) as He.
  { apply existsb_exists. exists h. split; [exact Hin | apply Nat.eqb_refl]. }
  cbv zeta. destruct (timerFires_pending h w He Hm) as [T [L S]].
  split; [now apply (last_call_app _ (trace w))|]. split; [exact L|]. split; [exact S|].
  split; [unfold render; cbn [connectButton disabled]; exact S|].
  unfold timerFires, onScanTimeout. step. rewrite He. step. rewrite Hm. step.
  now apply (last_log_app _ (logs w)).
Qed.

Lemma reachable_scanning_world : reachable scanning_world.
Proof. unfold scanning_world. apply reachable_react, reachable_initial. Qed.

(** After a press on "Connect" the scan is on, and its timeout ends it. *)
Lemma scanning_always_ends_example :
  exists scanTimeoutId,
    scanListener scanning_world = Some scanTimeoutId
    /\ In scanTimeoutId (timers scanning_world)
    /\ last_call (run (timerFires scanTimeoutId) scanning_world) = Some StopDeviceScan
    /\ scanListener (run (timerFires scanTimeoutId) scanning_world) = None
    /\ isScanning (run (timerFires scanTimeoutId) scanning_world) = false
    /\ disabled (connectButton (render (run (timerFires scanTimeoutId) scanning_world)))
       = false
    /\ last_log (run (timerFires scanTimeoutId) scanning_world)
       = Some "Scan timed out. Device not found."%string.
Proof.
  apply (scanning_always_ends scanning_world reachable_scanning_world). reflexivity.
Defined.

(** X4. The on-screen log is append-only: whatever the component reacts to
    and whatever the adapter answers, the log afterwards is the log
    before with lines added at the end; so every reachable log starts
    with "Ready to connect...". *)
Theorem log_is_append_only :
  (forall (adapter : Adapter) (s : stimulus) (w : World),
     exists added, logs (run (react adapter s w) w) = logs w ++ added)
  /\ (forall w, reachable w ->
      exists added, logs w = "Ready to connect..."%string :: added).
Proof.
  assert (forall adapter s w,
             exists added, logs (run (react adapter s w) w) = logs w ++ added) as H.
  { intros adapter s w. apply (grows_react adapter s w w). }
  split; [exact H|].
  induction 1 as [|adapter manager|adapter manager task w Hr [added E] Ht
                  |adapter s w Hr [added E]].
  - now exists [].
  - now exists ["BLE Manager initialized"%string].
  - destruct (mount_task_same_session adapter manager task w Ht) as [_ [[more E'] _]].
    rewrite E', E. now exists (added ++ more).
  - destruct (H adapter s w) as [more E']. rewrite E', E. now exists (added ++ more).
Qed.

Lemma starts_app (t1 t2 : list event) : starts (t1 ++ t2) = starts t1 ++ starts t2.
Proof. apply filter_app. Qed.

Lemma starts_permission_calls (adapter : Adapter) : starts (permission_calls adapter) = [].
Proof. unfold permission_calls. now destruct (Platform adapter). Qed.



(** X6. Past its guards, [startScan] calls [startDeviceScan] exactly when
    the permissions are granted and the radio reports "PoweredOn", and
    then once, with the 15 s timeout set just before.  The scanning flag
    is set afterwards exactly when, besides, that call did not throw.
    With the permissions denied the radio is not even asked; with the
    radio in another state the user is alerted and no timeout is set.
    [startScan] returns in every case. *)
Theorem scan_starts_iff_ready (adapter : Adapter) (w : World) :
  bleManagerRef w = true -> isScanning w = false ->
  let w' := run (startScan adapter) w in
  result (startScan adapter) w = Returned tt
  /\ starts (trace w')
     = starts (trace w)
       ++ (if permissions_granted adapter && powered_on adapter
           then [StartDeviceScan] else [])
  /\ (isScanning w' = true
      <-> permissions_granted adapter = true /\ powered_on adapter = true
          /\ exists u, startDeviceScan adapter = Resolves u)
  /\ (permissions_granted adapter = false ->
      trace w' = trace w ++ permission_calls adapter)
  /\ (permissions_granted adapter = true -> powered_on adapter = true ->
      trace w' = trace w ++ permission_calls adapter
                         ++ [GetState; SetTimeout (S (list_max (timers w))) 15000;
                             StartDeviceScan])
  /\ (forall radio,
        permissions_granted adapter = true -> state adapter = Resolves radio ->
        radio <> "PoweredOn"%string ->
        last_call w' = Some (AlertAlert "Bluetooth not enabled")
        /\ timers w' = timers w).
Proof.
  intros Hm Hs w'. subst w'.
  destruct (startScan_outcome adapter w Hm Hs) as [Hr [_ [_ H]]]. cbv zeta in H.
  split; [exact Hr|]. unfold powered_on.
  destruct (permissions_granted adapter).
  2:{ destruct H as [T [Fi _]]. rewrite T, starts_app, starts_permission_calls, app_nil_r.
      cbn [andb]. rewrite app_nil_r. rewrite Fi, Hs.
      repeat split; try discriminate; try tauto. }
  destruct (state adapter) as [radio|e].
  2:{ destruct H as [T [Fi _]].
      rewrite T, !starts_app, starts_permission_calls. cbn [andb app].
      change (starts [GetState]) with (@nil event). rewrite app_nil_r. rewrite Fi, Hs.
      repeat split; try discriminate; try tauto. }
  destruct (String.eqb radio "PoweredOn") eqn:Hp.
  - destruct H as [T [Ht H]]. rewrite T, !starts_app, starts_permission_calls.
    cbn [andb app].
    change (starts [GetState; SetTimeout (S (list_max (timers w))) 15000; StartDeviceScan])
      with [StartDeviceScan].
    split; [reflexivity|]. split.
    + destruct (startDeviceScan adapter) as [u|e]; destruct H as [Hi _]; rewrite Hi.
      * split; [intros _; repeat split; now exists u | reflexivity].
      * split; [discriminate | intros [_ [_ [u Hu]]]; discriminate].
    + split; [discriminate|]. split; [reflexivity|].
      intros radio' _ [= <-] Hne. apply String.eqb_eq in Hp. contradiction.
  - destruct H as [T [Fi [Ft _]]]. rewrite T, !starts_app, starts_permission_calls.
    cbn [andb app].
    change (starts [GetState; AlertAlert "Bluetooth not enabled"]) with (@nil event).
    rewrite app_nil_r. rewrite Fi, Hs.
    split; [reflexivity|]. split.
    + split; [discriminate | intros [_ [H _]]; discriminate].
    + split; [discriminate|]. split; [discriminate|].
      intros radio' _ _ _. split; [|exact Ft].
      apply (last_call_app _ (trace w ++ permission_calls adapter ++ [GetState])).
      rewrite T, <- !app_assoc. reflexivity.
Qed.

(** On Android 13 with the third permission denied, the one dialog is all
    [startScan] does. *)
Lemma scan_starts_iff_ready_example :
  trace (run (startScan (android 33 (Resolves [true; true; false]) "PoweredOn")) initial)
  = [RequestMultiple 3].
Proof.
  destruct (scan_starts_iff_ready (android 33 (Resolves [true; true; false]) "PoweredOn")
              initial eq_refl eq_refl) as [_ [_ [_ [H _]]]].
  exact (H eq_refl).
Defined.

(** X7. [requestPermissions] never throws.  It returns [true] exactly
    when the platform is not Android or the dialog resolved with every
    permission granted; it opens the dialog on Android only, for three
    permissions from API level 31 and for one below; it writes at most
    one line to the log and touches no other state. *)
Theorem requestPermissions_never_throws (adapter : Adapter) (w : World) :
  let w' := run (requestPermissions adapter) w in
  exists granted : bool,
    result (requestPermissions adapter) w = Returned granted
    /\ (granted = true
        <-> (forall version, Platform adapter <> Android version)
            \/ exists statuses,
                 requestMultiple adapter = Resolves statuses
                 /\ Forall (fun status => status = true) statuses)
    /\ trace w'
       = trace w ++ match Platform adapter with
                    | Android version =>
                        [RequestMultiple (if (31 <=? version)%nat then 3 else 1)]
                    | Ios | OtherOS => []
                    end
    /\ same_session w w'
    /\ exists added, logs w' = logs w ++ added /\ (length added <= 1)%nat.
Proof.
  intros w'. subst w'. unfold requestPermissions, run, result.
  destruct (Platform adapter) as [version| |] eqn:P; step.
  - destruct (requestMultiple adapter) as [statuses|e]; step.
    + destruct (forallb (fun status => status) statuses) eqn:A; step.
      * exists true. split; [reflexivity|]. split.
        { split; [|reflexivity]. intros _. right. exists statuses. split; [reflexivity|].
          apply Forall_forall. intros x Hx.
          exact (proj1 (forallb_forall _ _) A x Hx). }
        split; [reflexivity|]. split; [unfold same_session; cbn; tauto|].
        eexists. split; [reflexivity|]. cbn. lia.
      * exists false. split; [reflexivity|]. split.
        { split; [discriminate|]. intros [H|[statuses' [[= <-] H]]].
          - exfalso. exact (H version eq_refl).
          - assert (forallb (fun status => status) statuses = true) as A'.
            { apply forallb_forall. intros x Hx.
              exact (proj1 (Forall_forall _ _) H x Hx). }
            congruence. }
        split; [reflexivity|]. split; [unfold same_session; cbn; tauto|].
        eexists. split; [reflexivity|]. cbn. lia.
    + exists false. split; [reflexivity|]. split.
      { split; [discriminate|]. intros [H|[statuses' [H _]]]; [|discriminate].
        exfalso. exact (H version eq_refl). }
      split; [reflexivity|]. split; [unfold same_session; cbn; tauto|].
      eexists. split; [reflexivity|]. cbn. lia.
  - exists true. split; [reflexivity|]. split.
    { split; [|reflexivity]. intros _. left. discriminate. }
    split; [now rewrite app_nil_r|]. split; [unfold same_session; cbn; tauto|].
    eexists. split; [reflexivity|]. cbn. lia.
  - exists true. split; [reflexivity|]. split.
    { split; [|reflexivity]. intros _. left. discriminate. }
    split; [now rewrite app_nil_r|]. split; [unfold same_session; cbn; tauto|].
    exists []. split; [now rewrite app_nil_r|]. cbn. lia.
Qed.

Lemma existsb_eqb_remove (h : nat) (l : list nat) :
  existsb (Nat.eqb h) (remove Nat.eq_dec h l) = false.
Proof.
  destruct (existsb (Nat.eqb h) (remove Nat.eq_dec h l)) eqn:E; [|reflexivity].
  apply existsb_exists in E. destruct E as [x [Hx E]]. apply Nat.eqb_eq in E. subst x.
  exfalso. exact (remove_In Nat.eq_dec l h Hx).
Qed.

(** X8. A match ends the scan for good.  When the listener of the scan
    is called with a device whose name or local name names the target,
    then whatever the connection that follows does: the timeout the
    listener closes over is cancelled before anything else, the adapter
    is told to stop, the scanning flag is cleared and the listener is
    gone, so that no later scan result is handled and the timeout, when
    its time comes, does nothing. *)
Theorem match_ends_the_scan (adapter : Adapter) (scanTimeoutId : nat) (d : Device)
    (w : World) :
  bleManagerRef w = true ->
  names_target (name d) \/ names_target (localName d) ->
  let w' := run (onScan adapter scanTimeoutId None (Some d)) w in
  (exists rest,
     trace w' = trace w ++ [ClearTimeout scanTimeoutId; StopDeviceScan] ++ rest)
  /\ isScanning w' = false
  /\ scanListener w' = None
  /\ timers w' = remove Nat.eq_dec scanTimeoutId (timers w)
  /\ (forall adapter' error scanned, react adapter' (ScanResult error scanned) w' w'
                                     = (Returned tt, w'))
  /\ timerFires scanTimeoutId w' = (Returned tt, w').
Proof.
  intros Hm Hn w'.
  assert (Js.truthy (hasMatchingName d) = true) as Ht by now apply hasMatchingName_iff.
  assert (isScanning w' = false /\ scanListener w' = None
          /\ timers w' = remove Nat.eq_dec scanTimeoutId (timers w)) as [I [L Ti]].
  { subst w'. unfold onScan. rewrite Ht. step. rewrite Hm. step.
    match goal with
    | |- context [connectToDevice adapter d ?w0] =>
        pose proof (connectToDevice_keeps_scan adapter maxRetries d w0) as F
    end.
    unfold connectToDevice in *. unfold same_scan in F. step.
    destruct F as [Fi [Ft [Fl _]]]. rewrite Fi, Ft, Fl. tauto. }
  split.
  { destruct (onScan_selects adapter d scanTimeoutId w Hm Ht) as [rest E].
    exists (Connect (id d) :: rest). exact E. }
  repeat split; try assumption.
  - intros adapter' error scanned. cbn [react]. now rewrite L.
  - apply timerFires_cancelled. rewrite Ti. apply existsb_eqb_remove.
Qed.

(** The scan that [bt05] answers ends with its advertisement. *)
Lemma match_ends_the_scan_example :
  isScanning (run (onScan hm10 1 None (Some bt05)) scanning_world) = false.
Proof.
  assert (names_target (name bt05) \/ names_target (localName bt05)) as Hn.
  { left. exists "BT05"%string. split; [reflexivity | left; reflexivity]. }
  destruct (match_ends_the_scan hm10 1 bt05 scanning_world eq_refl Hn) as [_ [H _]].
  exact H.
Defined.

(** X9. [disconnectDevice] never throws and asks the adapter once to
    cancel the connection.  It resets the state itself only when that
    call is rejected: then the device, the connection flag and the servo
    state are cleared, and a second call does nothing at all.  When the
    call resolves, the state is left as it was (it is the listener of
    [onDisconnected] that clears it), so the view still shows the
    connection. *)
Theorem disconnect_resets_only_on_failure (adapter : Adapter) (w : World) (d : Device) :
  device w = Some d ->
  let w' := run (disconnectDevice adapter) w in
  result (disconnectDevice adapter) w = Returned tt
  /\ trace w' = trace w ++ [CancelConnection]
  /\ same_scan w w'
  /\ match cancelConnection adapter with
     | Resolves _ =>
         same_connection w w' /\ logs w' = logs w ++ ["Disconnecting..."%string]
     | Rejects error =>
         device w' = None /\ isConnected w' = false /\ servoState w' = false
         /\ logs w' = logs w ++ ["Disconnecting..."%string;
                                 ("Disconnect error: " ++ message error)%string]
         /\ forall adapter', disconnectDevice adapter' w' = (Returned tt, w')
     end.
Proof.
  intros Hd w'. subst w'. unfold disconnectDevice. step. rewrite Hd. step.
  destruct (cancelConnection adapter) as [[]|error]; step.
  - unfold same_scan, same_connection. cbn. tauto.
  - unfold same_scan. cbn. rewrite <- !app_assoc. cbn [app]. tauto.
Qed.

(** A rejected cancellation on a connected session. *)
Lemma disconnect_resets_only_on_failure_example :
  device (run (disconnectDevice (out_of_range {| message := "Device is not connected" |}))
              (connected true))
  = None.
Proof.
  destruct (disconnect_resets_only_on_failure
              (out_of_range {| message := "Device is not connected" |})
              (connected true) bt05 eq_refl)
    as [_ [_ [_ [H _]]]].
  exact H.
Defined.

(** Every way [toggleServo] can go, by the answers of [adapter]. *)
Ltac toggle_paths adapter w :=
  unfold toggleServo; step;
  destruct (device w) eqn:Hd; destruct (isConnected w) eqn:Hc; step;
  try (destruct (services adapter) as [svcs|es] eqn:Hs; step;
       [ destruct (find is_target_service svcs) as [s|] eqn:Hfs; step;
         [ destruct (characteristicsForService adapter) as [chars|ec] eqn:Hch; step;
           [ destruct (find is_target_characteristic chars) as [c|] eqn:Hfc; step;
             [ destruct (Characteristic.isWritableWithResponse c) eqn:Hw;
               [ destruct (writeCharacteristicWithResponseForService adapter)
                   as [[]|ew] eqn:Ha
               | destruct (writeCharacteristicWithoutResponseForService adapter)
                   as [[]|ew] eqn:Ha ];
               step
             | ]
           | ]
         | ]
       | ]);
  repeat match goal with
         | |- context [if ?b || ?b' then _ else _] => destruct (b || b'); step
         end.

(** X10. One press, one write at most.  Whatever the adapter answers,
    [toggleServo] makes no call at all unless a device is held and the
    connection flag is set, and otherwise writes at most once: the
    command opposite to the servo state, to the characteristic found in
    what the device lists at that moment.  It never scans, connects,
    subscribes or cancels. *)
Theorem toggleServo_writes_at_most_once (adapter : Adapter) (w : World) :
  let w' := run (toggleServo adapter) w in
  exists calls,
    trace w' = trace w ++ calls
    /\ (device w = None \/ isConnected w = false -> calls = [])
    /\ (writes calls = []
        \/ exists c,
             topology_verified adapter c
             /\ writes calls = [write_call c (wire (command_of (negb (servoState w))))])
    /\ forallb (fun call =>
                  match call with
                  | Services | CharacteristicsForService _ | WriteWithResponse _ _ _
                  | WriteWithoutResponse _ _ _ | AlertAlert _ => true
                  | _ => false
                  end) calls = true.
Proof.
  intros w'. subst w'.
  toggle_paths adapter w;
    rewrite <- ?app_assoc; cbn [app];
    try (exists []; rewrite app_nil_r; split; [reflexivity|];
         split; [reflexivity|]; split; [left; reflexivity | reflexivity]);
    (eexists; split; [reflexivity|];
     split; [intros [H|H]; discriminate|];
     split; [|reflexivity]);
    try (left; reflexivity);
    right; exists c; (split; [exists svcs, s, chars; auto|]);
    unfold write_call; rewrite Hw; reflexivity.
Qed.

Lemma has_event_app (p : event -> bool) (w : World) (t calls : list event) :
  trace w = t ++ calls -> has_event p w = existsb p t || existsb p calls.
Proof. intros E. unfold has_event. rewrite E. apply existsb_app. Qed.




Lemma wire_not_empty (text : string) : text <> EmptyString -> wire text <> EmptyString.
Proof.
  intros H. destruct text as [|c s]; [congruence|].
  unfold wire. cbn [Buffer.from]. unfold Buffer.utf8_char.
  destruct (_ <? _)%N; cbn [app];
    destruct (Buffer.from s) as [|b [|b' r]]; cbn [Buffer.toString_base64]; discriminate.
Qed.

(** X12. The encoder of the commands and the decoder of the notifications
    are inverse on 7-bit text: when the peripheral notifies back what
    [wire] made of a non-empty text of 7-bit characters, the listener
    logs "Received: " and that very text, raises the rain alert exactly
    when the text contains "RAIN", and touches nothing else. *)
Theorem echo_is_logged_verbatim (text : string) (c : Characteristic.t) (w : World) :
  seven_bit text = true -> text <> EmptyString ->
  Characteristic.value c = Some (wire text) ->
  let w' := run (onNotification None (Some c)) w in
  logs w' = logs w ++ [("Received: " ++ text)%string]
  /\ trace w' = trace w ++ (if JsString.includes text "RAIN"
                            then [AlertAlert "Rain Detected!"] else [])
  /\ same_session w w'.
Proof.
  intros H7 Hne Hv w'. subst w'. unfold run.
  rewrite (onNotification_decoded c (wire text) w Hv (wire_not_empty text Hne)).
  cbv zeta. rewrite (wire_round_trip text H7). cbn [snd].
  destruct (JsString.includes text "RAIN"); cbn [logs trace with_trace with_logs].
  - repeat split.
  - rewrite app_nil_r. repeat split.
Qed.

(** The peripheral echoes the command that switches the servo on. *)
Lemma echo_is_logged_verbatim_example :
  logs (run (onNotification None (Some (notified (command_of true)))) initial)
  = logs initial ++ [("Received: " ++ command_of true)%string].
Proof.
  assert (command_of true <> EmptyString) as Hne by discriminate.
  destruct (echo_is_logged_verbatim (command_of true) (notified (command_of true)) initial
              eq_refl Hne eq_refl) as [H _].
  exact H.
Defined.

(** ** The listener of [onDisconnected] (lines 320-326) *)

Section Listening.

Variable adapter : Adapter.




End Listening.



Section ListeningHandlers.

Variable adapter : Adapter.











End ListeningHandlers.





(** ** The manager singleton (lines 29-41) *)

Lemma getBleManager_calls_held (constructs : list (answer unit)) (g : Globals) (m : nat) :
  bleManagerInstance g = Some m -> getBleManager_calls constructs g = (Some m, g).
Proof.
  intros H. induction constructs as [|construct rest IH]; cbn [getBleManager_calls].
  - now rewrite H.
  - unfold getBleManager. rewrite H. cbn [andb snd]. exact IH.
Qed.

(** X14. [getBleManager] makes one manager at most.  While the
    constructor throws, each call tries again and returns null; the first
    call at which it succeeds makes the instance, and every call after
    that returns this same instance without constructing anything:
    after [failures] throwing calls and one that succeeds, the
    constructor was called [length failures + 1] times, however many
    calls follow. *)
Theorem getBleManager_is_a_singleton (failures : list (answer unit)) (u : unit)
    (rest : list (answer unit)) (g : Globals) :
  BleManager g = true -> bleManagerInstance g = None -> Forall throws failures ->
  let made := S (constructions g + length failures) in
  getBleManager_calls failures g
  = (None, {| BleManager := true; bleManagerInstance := None;
              constructions := constructions g + length failures |})
  /\ getBleManager_calls (failures ++ Resolves u :: rest) g
     = (Some made, {| BleManager := true; bleManagerInstance := Some made;
                      constructions := made |}).
Proof.
  intros Hc Hn Hf. revert g Hc Hn.
  induction Hf as [|construct failures [e ->] Hf IH]; intros g Hc Hn made; subst made.
  - cbn [app length getBleManager_calls]. rewrite Nat.add_0_r. split.
    + rewrite Hn. destruct g as [c i n]. cbn in *. now subst.
    + unfold getBleManager. rewrite Hn, Hc. cbn [andb snd].
      now apply getBleManager_calls_held.
  - cbn [app length getBleManager_calls]. unfold getBleManager.
    rewrite Hn, Hc. cbn [andb snd].
    match goal with
    | |- context [getBleManager_calls failures ?g1] =>
        specialize (IH g1 eq_refl eq_refl); cbv zeta in IH; cbn [constructions] in IH
    end.
    destruct IH as [IH1 IH2]. rewrite IH1, IH2.
    rewrite !Nat.add_succ_r. cbn [Nat.add]. now split.
Qed.

(** The constructor throws once, then succeeds: the second call makes the
    manager that the third and fourth return. *)
Lemma getBleManager_is_a_singleton_example :
  getBleManager_calls
    ([Rejects {| message := "Native module missing" |}]
       ++ Resolves tt :: [Resolves tt; Rejects {| message := "Native module missing" |}])
    {| BleManager := true; bleManagerInstance := None; constructions := 0 |}
  = (Some 2, {| BleManager := true; bleManagerInstance := Some 2; constructions := 2 |}).
Proof.
  assert (Forall (@throws unit) [Rejects {| message := "Native module missing" |}]) as Hf.
  { constructor; [now exists {| message := "Native module missing" |} | constructor]. }
  exact (proj2 (getBleManager_is_a_singleton
                  [Rejects {| message := "Native module missing" |}] tt
                  [Resolves tt; Rejects {| message := "Native module missing" |}]
                  {| BleManager := true; bleManagerInstance := None; constructions := 0 |}
                  eq_refl eq_refl Hf)).
Defined.

(** ** The mount effect and its cleanup (lines 61-98) *)

Lemma react_inert (adapter : Adapter) (s : stimulus) (w : World) :
  inert w ->
  inert (run (react adapter s w) w) /\ trace (run (react adapter s w) w) = trace w.
Proof.
  intros [Hm [Hd [Hc [Hs [Hv [Ht [Hl [Htr [Ha Hw]]]]]]]]].
  assert (forall p, (p (AlertAlert "BLE Not Supported") = false) -> has_event p w = false)
    as Hev.
  { intros p Hp. unfold has_event. destruct Htr as [-> | ->]; cbn; [reflexivity|].
    now rewrite Hp. }
  assert (inert w) as Hi by (unfold inert; tauto).
  destruct s; cbn [react].
  - unfold press, render. cbn [connectButton disabled onPress]. rewrite Hs, Hc.
    cbn [perform]. unfold run. rewrite startScan_guarded by now left.
    cbn [snd]. unfold inert. cbn. tauto.
  - unfold press, render. cbn [servoButton disabled onPress]. rewrite Hc. now split.
  - rewrite Ha. destruct alertIndex; now split.
  - rewrite Ha. destruct alertIndex; now split.
  - unfold timerFires. step. rewrite Ht. cbn [existsb]. now split.
  - rewrite Hl. now split.
  - rewrite Hev by reflexivity. now split.
  - rewrite Hev by reflexivity. now split.
Qed.

Lemma reacts_inert (events : list (Adapter * stimulus)) (w : World) :
  inert w -> inert (reacts events w) /\ trace (reacts events w) = trace w.
Proof.
  revert w. induction events as [|[adapter s] events IH]; intros w Hi; cbn [reacts].
  - now split.
  - destruct (react_inert adapter s w Hi) as [Hi' T].
    destruct (IH _ Hi') as [Hi'' T']. split; [exact Hi''|]. now rewrite T', T.
Qed.

(** X15. A mount that gets no manager leaves a component that never
    touches the adapter.  When the [BleManager] class could not be
    imported, or [getBleManager] returned null, the mount effect starts
    no task and returns no cleanup; and after it, whatever stimuli
    follow, no call is made beyond the alert of the failed import, no
    device is ever held, the servo button stays disabled and the connect
    button keeps asking for a scan that is refused. *)
Theorem failed_mount_is_inert (adapter : Adapter) (imported : bool)
    (manager : option nat) (events : list (Adapter * stimulus)) :
  imported = false \/ manager = None ->
  let w0 := run (initialize adapter imported manager) unmounted in
  let w := reacts events w0 in
  result (initialize adapter imported manager) unmounted
  = Returned {| started := []; cleanup := None |}
  /\ inert w
  /\ trace w = (if imported then [] else [AlertAlert "BLE Not Supported"])
  /\ disabled (servoButton (render w)) = true
  /\ onPress (connectButton (render w)) = StartScan
  /\ forall adapter', trace (run (startScan adapter') w) = trace w.
Proof.
  intros H w0 w.
  assert (result (initialize adapter imported manager) unmounted
          = Returned {| started := []; cleanup := None |}
          /\ inert w0
          /\ trace w0 = (if imported then [] else [AlertAlert "BLE Not Supported"]))
    as [Hr [Hi Ht]].
  { subst w0 w. destruct imported.
    - destruct H as [H | ->]; [discriminate|].
      split; [reflexivity|]. split; [|reflexivity]. unfold inert. cbn. tauto.
    - split; [reflexivity|]. split; [|reflexivity]. unfold inert. cbn. tauto. }
  destruct (reacts_inert events w0 Hi) as [Hi' Ht']. fold w in Hi', Ht'.
  split; [exact Hr|]. split; [exact Hi'|]. split; [now rewrite Ht', Ht|].
  destruct Hi' as [Hm [_ [Hc _]]].
  unfold render. cbn [servoButton connectButton disabled onPress]. rewrite Hc.
  split; [reflexivity|]. split; [reflexivity|].
  intros adapter'. unfold run. rewrite startScan_guarded by now left. reflexivity.
Qed.

(** The import failed; a press on "Connect" then makes no call. *)
Lemma failed_mount_is_inert_example :
  trace (reacts [(hm10, PressConnect)] (run (initialize hm10 false None) unmounted))
  = [AlertAlert "BLE Not Supported"].
Proof.
  destruct (failed_mount_is_inert hm10 false None [(hm10, PressConnect)]
              (or_introl eq_refl)) as [_ [_ [H _]]].
  exact H.
Defined.

(** X16. The cleanup of the mount effect never cancels a connection.
    The effect runs once, in the first render, where no device is held;
    the cleanup it returns closes over that render: whenever it runs,
    and whatever device is held and connected by then, it stops the scan
    if there is a manager and makes no other call, and leaves the
    session and the pending timeout as they are. *)
Theorem unmount_never_cancels (adapter : Adapter) (manager : nat) (w0 : World) :
  device w0 = None ->
  exists mounted unmount,
    result (initialize adapter true (Some manager)) w0 = Returned mounted
    /\ cleanup mounted = Some unmount
    /\ forall w,
         let w' := run unmount w in
         result unmount w = Returned tt
         /\ trace w' = trace w ++ (if bleManagerRef w then [StopDeviceScan] else [])
         /\ same_connection w w'
         /\ isScanning w' = isScanning w /\ timers w' = timers w.
Proof.
  intros Hd. unfold initialize. step. rewrite Hd.
  eexists. eexists. split; [reflexivity|]. split; [reflexivity|].
  intros w. unfold effectCleanup. step.
  destruct (bleManagerRef w); step; unfold same_connection; cbn;
    rewrite ?app_nil_r; tauto.
Qed.

(** Mounted on a fresh component. *)
Lemma unmount_never_cancels_example :
  exists mounted unmount,
    result (initialize hm10 true (Some 1)) unmounted = Returned mounted
    /\ cleanup mounted = Some unmount
    /\ forall w,
         let w' := run unmount w in
         result unmount w = Returned tt
         /\ trace w' = trace w ++ (if bleManagerRef w then [StopDeviceScan] else [])
         /\ same_connection w w'
         /\ isScanning w' = isScanning w /\ timers w' = timers w.
Proof.
  exact (unmount_never_cancels hm10 1 unmounted eq_refl).
Defined.
